(** * TutorNeo: the tutor-response normalization protocol

    A shallow embedding of [src/app/api/chat/route.ts] (the chat route:
    context building, JSON extraction, single-question enforcement,
    evaluation normalization, the [POST] handler) and of the chat handlers
    of [src/app/page.tsx] (the evaluation cell of the page).

    ECMAScript strings are sequences of UTF-16 code units, numbers are
    IEEE-754 doubles; both are modelled by their values. *)

From Stdlib Require Import List ZArith NArith QArith Qround Bool Lia Lqa.
From Stdlib Require Import Strings.String Strings.Ascii.
Import ListNotations.

(** ** ECMAScript strings *)

Module JsString.

(** A UTF-16 code unit, [0 .. 0xFFFF]. *)
Definition code_unit := N.

Definition jsstring := list code_unit.

(** A source literal made of ASCII characters. *)
Definition str (s : string) : jsstring :=
  map N_of_ascii (list_ascii_of_string s).

Definition unit_eqb (a b : code_unit) : bool := N.eqb a b.

Fixpoint string_eqb (a b : jsstring) : bool :=
  match a, b with
  | [], [] => true
  | x :: a', y :: b' => unit_eqb x y && string_eqb a' b'
  | _, _ => false
  end.

(** [search] is a prefix of [s]. *)
Fixpoint starts_with (search s : jsstring) : bool :=
  match search, s with
  | [], _ => true
  | c :: search', d :: s' => unit_eqb c d && starts_with search' s'
  | _ :: _, [] => false
  end.

(** First match of [search] in [s], whose head has index [i]; [-1] when
    there is none. *)
Fixpoint find_from (search s : jsstring) (i : Z) : Z :=
  if starts_with search s then i
  else match s with
       | [] => (-1)%Z
       | _ :: s' => find_from search s' (i + 1)
       end.

(** Last match of [search] in [s], whose head has index [i]. *)
Fixpoint find_last (search s : jsstring) (i : Z) : Z :=
  match s with
  | [] => if starts_with search [] then i else (-1)%Z
  | _ :: s' =>
      let r := find_last search s' (i + 1) in
      if (0 <=? r)%Z then r
      else if starts_with search s then i else (-1)%Z
  end.

Definition len (s : jsstring) : Z := Z.of_nat (List.length s).

Definition clamp (lo hi x : Z) : Z := Z.min (Z.max x lo) hi.

(** [String.prototype.indexOf(search, position)]. *)
Definition indexOf (s search : jsstring) (position : Z) : Z :=
  let start := clamp 0 (len s) position in
  find_from search (skipn (Z.to_nat start) s) start.

(** [String.prototype.lastIndexOf(search)], the position left out. *)
Definition lastIndexOf (s search : jsstring) : Z :=
  find_last search s 0.

(** [String.prototype.slice(start, end)]: a negative index counts from the
    end of the string, and both are clamped to the string. *)
Definition slice (s : jsstring) (start finish : Z) : jsstring :=
  let n := len s in
  let from := if (start <? 0)%Z then Z.max (n + start) 0 else Z.min start n in
  let to := if (finish <? 0)%Z then Z.max (n + finish) 0 else Z.min finish n in
  firstn (Z.to_nat (to - from)) (skipn (Z.to_nat from) s).

(** WhiteSpace and LineTerminator code units, the ones [trim] strips. *)
Definition isWhiteSpace (c : code_unit) : bool :=
  ((9 <=? c) && (c <=? 13)
   || (c =? 32) || (c =? 160) || (c =? 5760)
   || (8192 <=? c) && (c <=? 8202)
   || (c =? 8232) || (c =? 8233) || (c =? 8239) || (c =? 8287)
   || (c =? 12288) || (c =? 65279))%N.

Fixpoint trimStart (s : jsstring) : jsstring :=
  match s with
  | c :: s' => if isWhiteSpace c then trimStart s' else s
  | [] => []
  end.

Definition trimEnd (s : jsstring) : jsstring :=
  rev (trimStart (rev s)).

(** [String.prototype.trim()]. *)
Definition trim (s : jsstring) : jsstring := trimEnd (trimStart s).

(** [Array.prototype.join(sep)] on an array of strings. *)
Fixpoint join (sep : jsstring) (parts : list jsstring) : jsstring :=
  match parts with
  | [] => []
  | [p] => p
  | p :: rest => p ++ sep ++ join sep rest
  end.

(** The number of occurrences of the code unit [c]. *)
Definition occurrences (c : code_unit) (s : jsstring) : nat :=
  count_occ N.eq_dec s c.

End JsString.
Import JsString.

(** ** ECMAScript numbers *)

Module JsNumber.

(** A double is NaN, an infinity, the negative zero, or a finite value;
    every finite double is a rational, and [Finite 0] is the positive
    zero. *)
Inductive number :=
| NaN
| Infinity (negative : bool)
| NegZero
| Finite (q : Q).

Definition of_Z (n : Z) : number := Finite (inject_Z n).

Definition is_finite (x : number) : bool :=
  match x with
  | NaN | Infinity _ => false
  | NegZero | Finite _ => true
  end.

(** [x < y] in the order of [Math.min] and [Math.max], which put the
    negative zero below the positive one; false when either is NaN. *)
Definition below (x y : number) : bool :=
  match x, y with
  | NaN, _ | _, NaN => false
  | Infinity true, Infinity true => false
  | Infinity true, _ => true
  | _, Infinity true => false
  | Infinity false, _ => false
  | _, Infinity false => true
  | NegZero, NegZero => false
  | NegZero, Finite q => Qle_bool 0 q
  | Finite q, NegZero => negb (Qle_bool 0 q)
  | Finite p, Finite q => negb (Qle_bool q p)
  end.

(** [Math.min(a, b)]. *)
Definition Math_min (a b : number) : number :=
  match a, b with
  | NaN, _ | _, NaN => NaN
  | _, _ => if below b a then b else a
  end.

(** [Math.max(a, b)]. *)
Definition Math_max (a b : number) : number :=
  match a, b with
  | NaN, _ | _, NaN => NaN
  | _, _ => if below a b then b else a
  end.

(** [Math.round(x)]: the integer closest to [x], the upper one of two
    equally close; a result of zero keeps the sign of [x]. On a double the
    integer [floor (x + 1/2)] is a double again, so that no rounding
    happens. *)
Definition Math_round (x : number) : number :=
  match x with
  | NaN => NaN
  | Infinity s => Infinity s
  | NegZero => NegZero
  | Finite q =>
      let n := Qfloor (q + (1 # 2)) in
      if (n =? 0)%Z && negb (Qle_bool 0 q) then NegZero else of_Z n
  end.

End JsNumber.
Import JsNumber.

(** ** ECMAScript values and completions *)

Module JsValue.

(** The values [JSON.parse] builds, and [undefined]. The properties of an
    object are kept in an association list, read from its head. *)
#[local] Set Warnings "-register-all".
Inductive value :=
| VUndefined
| VNull
| VBool (b : bool)
| VNumber (n : number)
| VString (s : jsstring)
| VArray (items : list value)
| VObject (props : list (jsstring * value)).

(** What a [throw] carries. *)
Inductive thrown :=
| SyntaxError (message : jsstring)
| TypeError (message : jsstring)
| OtherError (message : jsstring)
| NotAnError (v : value).

Definition instanceof_Error (t : thrown) : bool :=
  match t with
  | NotAnError _ => false
  | _ => true
  end.

Definition message_of (t : thrown) : jsstring :=
  match t with
  | SyntaxError m | TypeError m | OtherError m => m
  | NotAnError _ => []
  end.

(** The outcome of evaluating an expression: a value or a [throw]. *)
Inductive completion (A : Type) :=
| Normal (a : A)
| Throw (t : thrown).
Arguments Normal {A} a.
Arguments Throw {A} t.

Definition bind {A B} (c : completion A) (k : A -> completion B)
  : completion B :=
  match c with
  | Normal a => k a
  | Throw t => Throw t
  end.

(** [try { c } catch { handler }]. *)
Definition try_catch {A} (c : completion A) (handler : thrown -> completion A)
  : completion A :=
  match c with
  | Normal a => Normal a
  | Throw t => handler t
  end.

Definition typeof (v : value) : jsstring :=
  match v with
  | VUndefined => str "undefined"
  | VNull => str "object"
  | VBool _ => str "boolean"
  | VNumber _ => str "number"
  | VString _ => str "string"
  | VArray _ | VObject _ => str "object"
  end.

(** ToBoolean. *)
Definition truthy (v : value) : bool :=
  match v with
  | VUndefined | VNull => false
  | VBool b => b
  | VNumber NaN | VNumber NegZero => false
  | VNumber (Finite q) => negb (Qeq_bool q 0)
  | VNumber (Infinity _) => true
  | VString s => negb (string_eqb s [])
  | VArray _ | VObject _ => true
  end.

Definition Array_isArray (v : value) : bool :=
  match v with
  | VArray _ => true
  | _ => false
  end.

(** [Number.isFinite(v)], which converts nothing. *)
Definition Number_isFinite (v : value) : bool :=
  match v with
  | VNumber n => is_finite n
  | _ => false
  end.

Fixpoint lookup (key : jsstring) (props : list (jsstring * value)) : value :=
  match props with
  | [] => VUndefined
  | (k, v) :: rest => if string_eqb k key then v else lookup key rest
  end.

(** The property read [v.key], for a [key] that is neither an array index
    nor a property of the built-in prototypes (the route reads [reply],
    [evaluation], [status], [score], [weakConcepts], [nextActions] and
    [summary]): an own property of an object, [undefined] on any other
    value, and a TypeError on [null] and [undefined]. *)
Definition get (v : value) (key : jsstring) : completion value :=
  match v with
  | VUndefined | VNull =>
      Throw (TypeError
               (str "Cannot read properties of "
                  ++ (match v with VNull => str "null" | _ => str "undefined" end)
                  ++ str " (reading '" ++ key ++ str "')"))
  | VObject props => Normal (lookup key props)
  | _ => Normal VUndefined
  end.

(** The optional chain [v?.key]. *)
Definition get_optional (v : value) (key : jsstring) : completion value :=
  match v with
  | VUndefined | VNull => Normal VUndefined
  | _ => get v key
  end.

End JsValue.
Import JsValue.

Declare Scope completion_scope.
Delimit Scope completion_scope with completion.
Notation "x <- c ;; k" := (bind c (fun x => k))
  (at level 61, c at next level, right associativity) : completion_scope.

(** ** The chat route, [src/app/api/chat/route.ts] *)

Module Route.

Local Open Scope completion_scope.
Local Open Scope list_scope.

Inductive Role := user | assistant | system.

(** A message as the route sends it to the model: [role] and [content]. *)
Record IncomingMessage := {
  role : Role;
  content : jsstring
}.

(** A message of the request body; [other] holds the properties it carries
    besides [role] and [content]. *)
Record RequestMessage := {
  msg_role : Role;
  msg_content : jsstring;
  other : list (jsstring * value)
}.

Record TaskConfig := {
  topic : option jsstring;
  objective : option jsstring;
  subject : option jsstring;
  grade : option jsstring;
  durationMin : option jsstring
}.

Record StudentProfile := {
  name : option jsstring;
  age : option jsstring;
  course : option jsstring;
  strengths : option jsstring;
  challenges : option jsstring
}.

Record ChatRequest := {
  messages : option (list RequestMessage);
  systemPrompt : option jsstring;
  model : option jsstring;
  apiKey : option jsstring;
  taskConfig : option TaskConfig;
  student : option StudentProfile;
  start : option bool
}.

(** [process.env], the two variables the route reads. *)
Record Env := {
  OPENAI_API_KEY : option jsstring;
  OPENAI_MODEL : option jsstring
}.

(** A literal of the source in which a double quote is written as a
    backquote. *)
Definition str_q (s : string) : jsstring :=
  map (fun c => if (c =? 96)%N then 34%N else c) (str s).

Definition FORMAT_INSTRUCTIONS : jsstring := Eval cbv in
  str "Responde SOLO en JSON valido con este formato: " ++
  str_q "{`reply`:`...`,`evaluation`:{`status`:`Aprobado`|`En proceso`,`score`:0-100,`weakConcepts`:[`...`],`nextActions`:[`...`],`summary`:`...`}}. " ++
  str "Reglas para reply: maximo una pregunta (un solo signo ?), si haces una pregunta que sea al final, y no incluyas resumen ni siguientes pasos en reply (eso va en evaluation.summary y nextActions).".

Definition START_INSTRUCTION : jsstring := Eval cbv in
  str "Inicia la conversacion con la primera pregunta al alumno.".

Definition ND : jsstring := Eval cbv in str "N/D".

Definition NEWLINE : jsstring := [10%N].

(** [field ?? fallback]. *)
Definition nullish (field : option jsstring) (fallback : jsstring) : jsstring :=
  match field with
  | Some s => s
  | None => fallback
  end.

Notation "a ?? b" := (nullish a b) (at level 40, left associativity).

(** ToBoolean of an optional string: [undefined] and the empty string are
    falsy. *)
Definition truthy_string (s : option jsstring) : bool :=
  match s with
  | Some (_ :: _) => true
  | _ => false
  end.

(** [a || b] on optional strings. *)
Definition or_else (a b : option jsstring) : option jsstring :=
  if truthy_string a then a else b.

(** [a || "literal"]. *)
Definition or_default (a : option jsstring) (literal : jsstring) : jsstring :=
  match a with
  | Some (c :: rest) => c :: rest
  | _ => literal
  end.

(** [buildContext] (route.ts, 40-58). *)
Definition buildContext (task : option TaskConfig)
    (student : option StudentProfile) : jsstring :=
  let lines := [str "Contexto de tarea:"] in
  let lines :=
    match task with
    | Some task =>
        lines ++ [str "- Tema: " ++ (topic task ?? ND)]
              ++ [str "- Objetivo: " ++ (objective task ?? ND)]
              ++ [str "- Materia: " ++ (subject task ?? ND)]
              ++ [str "- Grado: " ++ (grade task ?? ND)]
              ++ [str "- Duracion estimada: " ++ (durationMin task ?? ND)
                    ++ str " min"]
    | None => lines
    end in
  let lines := lines ++ [str "Perfil del alumno:"] in
  let lines :=
    match student with
    | Some student =>
        lines ++ [str "- Nombre: " ++ (name student ?? ND)]
              ++ [str "- Edad: " ++ (age student ?? ND)]
              ++ [str "- Curso: " ++ (course student ?? ND)]
              ++ [str "- Fortalezas: " ++ (strengths student ?? ND)]
              ++ [str "- Dificultades: " ++ (challenges student ?? ND)]
    | None => lines
    end in
  join NEWLINE lines.

Definition QUESTION_MARK : jsstring := Eval cbv in str "?".
Definition OPEN_BRACE : jsstring := Eval cbv in str "{".
Definition CLOSE_BRACE : jsstring := Eval cbv in str "}".

(** [enforceSingleQuestion] (route.ts, 72-78). *)
Definition enforceSingleQuestion (reply : jsstring) : jsstring :=
  let first := indexOf reply QUESTION_MARK 0 in
  if (first =? -1)%Z then trim reply
  else
    let second := indexOf reply QUESTION_MARK (first + 1) in
    if (second =? -1)%Z then trim reply
    else trim (slice reply 0 (first + 1)).

(** The record [normalizeEvaluation] returns; [summary] is [None] where
    the source stores [undefined], a property that the JSON of the response
    leaves out. *)
Record EvaluationRecord := {
  status : jsstring;
  score : number;
  weakConcepts : list jsstring;
  nextActions : list jsstring;
  summary : option jsstring
}.

Definition APROBADO : jsstring := Eval cbv in str "Aprobado".
Definition EN_PROCESO : jsstring := Eval cbv in str "En proceso".

(** [=== "Aprobado"]: a string of the same code units. *)
Definition is_Aprobado (v : value) : bool :=
  match v with
  | VString s => string_eqb s APROBADO
  | _ => false
  end.

(** [items.filter((item) => typeof item === "string")]. *)
Fixpoint filter_strings (items : list value) : list jsstring :=
  match items with
  | [] => []
  | VString s :: rest => s :: filter_strings rest
  | _ :: rest => filter_strings rest
  end.

Definition string_items (v : value) : list jsstring :=
  match v with
  | VArray items => filter_strings items
  | _ => []
  end.

(** [normalizeEvaluation] (route.ts, 80-107). *)
Definition normalizeEvaluation (value : value)
  : completion (option EvaluationRecord) :=
  if negb (truthy value) || negb (string_eqb (typeof value) (str "object"))
  then Normal None
  else
    evaluation_status <- get value (str "status") ;;
    let status := if is_Aprobado evaluation_status then APROBADO else EN_PROCESO in
    evaluation_score <- get value (str "score") ;;
    (* Number.isFinite(evaluation.score) ? evaluation.score : 0 *)
    let score :=
      match evaluation_score with
      | VNumber n => if is_finite n then n else of_Z 0
      | _ => of_Z 0
      end in
    evaluation_weakConcepts <- get value (str "weakConcepts") ;;
    let weakConcepts := string_items evaluation_weakConcepts in
    evaluation_nextActions <- get value (str "nextActions") ;;
    let nextActions := string_items evaluation_nextActions in
    evaluation_summary <- get value (str "summary") ;;
    Normal (Some {|
      status := status;
      score := Math_max (of_Z 0) (Math_min (of_Z 100) (Math_round score));
      weakConcepts := weakConcepts;
      nextActions := nextActions;
      summary := match evaluation_summary with
                 | VString s => Some s
                 | _ => None
                 end
    |}).

(** What the handler answers: [NextResponse.json(body, { status })]. *)
Inductive ResponseBody :=
| ErrorBody (error : jsstring)
| TurnBody (text : jsstring) (evaluation : option EvaluationRecord).

Record Response := {
  http_status : Z;
  body : ResponseBody
}.

(** The handler as a tree of its calls to the model:
    [client.responses.create({ model, input })] on a client built with
    [apiKey], answered by the [output_text] of the response or by a
    [throw]. *)
Inductive action (A : Type) :=
| Return (a : A)
| Create (apiKey model : jsstring) (input : list IncomingMessage)
    (k : completion jsstring -> action A).
Arguments Return {A} a.
Arguments Create {A} apiKey model input k.

(** The calls of a run against a given model service, and its result. *)
Fixpoint run {A} (service : jsstring -> jsstring -> list IncomingMessage
                            -> completion jsstring)
    (a : action A) : list (jsstring * jsstring * list IncomingMessage) * A :=
  match a with
  | Return r => ([], r)
  | Create key model input k =>
      let (calls, r) := run service (k (service key model input)) in
      ((key, model, input) :: calls, r)
  end.

(** The context of the turn (route.ts, 122-148). *)
Definition buildInput (body : ChatRequest) : list IncomingMessage :=
  let input := [] in
  let input :=
    match systemPrompt body with
    | Some prompt =>
        if truthy_string (Some (trim prompt))
        then input ++ [{| role := system; content := trim prompt |}]
        else input
    | None => input
    end in
  let input :=
    input ++ [{| role := system;
                 content := buildContext (taskConfig body) (student body) |}] in
  let input :=
    match start body with
    | Some true =>
        input ++ [{| role := system; content := START_INSTRUCTION |}]
    | _ => input
    end in
  let input := input ++ [{| role := system; content := FORMAT_INSTRUCTIONS |}] in
  match messages body with
  | Some messages =>
      input ++ map (fun message => {| role := msg_role message;
                                      content := msg_content message |})
                   messages
  | None => input
  end.

(** What the [catch] of the handler answers (route.ts, 169-177). *)
Definition upstreamFailure (error : thrown) : Response :=
  {| http_status := 500;
     body := ErrorBody (if instanceof_Error error then message_of error
                        else str "OpenAI request failed") |}.

Definition MISSING_KEY : Response :=
  {| http_status := 400;
     body := ErrorBody (str "Missing OPENAI_API_KEY") |}.

Section WithJSON.

(** [JSON.parse], which returns the value of a document or throws a
    SyntaxError. *)
Variable JSON_parse : jsstring -> completion value.

(** [extractJson] (route.ts, 60-70). *)
Definition extractJson (text : jsstring) : completion value :=
  let start := indexOf text OPEN_BRACE 0 in
  let finish := lastIndexOf text CLOSE_BRACE in
  if (start =? -1)%Z || (finish =? -1)%Z || (finish <=? start)%Z
  then Normal VNull
  else
    let candidate := slice text start (finish + 1) in
    try_catch (JSON_parse candidate) (fun _ => Normal VNull).

(** The normalization of the model's output (route.ts, 158-168). *)
Definition normalizeOutput (output_text : jsstring) : completion Response :=
  let outputText := or_default (Some output_text) [] in
  parsed <- extractJson outputText ;;
  rawReply <-
    (if truthy parsed
     then parsed_reply <- get parsed (str "reply") ;;
          Normal (match parsed_reply with
                  | VString s => s
                  | _ => outputText
                  end)
     else Normal outputText) ;;
  let reply := enforceSingleQuestion rawReply in
  parsed_evaluation <- get_optional parsed (str "evaluation") ;;
  evaluation <- normalizeEvaluation parsed_evaluation ;;
  Normal {| http_status := 200;
            body := TurnBody reply evaluation |}.

(** The [try] block of the handler with its [catch] (route.ts, 152-177),
    on the outcome of the call to the model. *)
Definition respond (response : completion jsstring) : Response :=
  match output_text <- response ;; normalizeOutput output_text with
  | Normal r => r
  | Throw error => upstreamFailure error
  end.

(** [POST] (route.ts, 109-178), on the parsed body of the request. The
    guard [if (!apiKey)] is the second branch of the match: [apiKey] is
    [undefined] or empty. *)
Definition POST (env : Env) (body : ChatRequest) : action Response :=
  match or_else (OPENAI_API_KEY env) (apiKey body) with
  | Some (c :: rest) =>
      let apiKey := c :: rest in
      let model :=
        or_default (or_else (model body) (OPENAI_MODEL env))
                   (str "gpt-4.1-mini") in
      let input := buildInput body in
      Create apiKey model input (fun response => Return (respond response))
  | _ => Return MISSING_KEY
  end.

End WithJSON.

End Route.
Import Route.

(** ** The chat handlers of the page, [src/app/page.tsx] *)

Module Page.

Inductive Role := user | assistant.

Record Message := {
  id : jsstring;
  role : Role;
  content : jsstring;
  ts : Z
}.

Record Evaluation := {
  status : jsstring;
  score : number;
  weakConcepts : list jsstring;
  nextActions : list jsstring;
  summary : option jsstring;
  updatedAt : option Z
}.

(** The body of a successful answer of the route, as [response.json()]
    gives it. *)
Record TurnData := {
  text : option jsstring;
  evaluation : option Route.EvaluationRecord
}.

(** The state cells of [Home] the chat handlers read and write. *)
Record State := {
  messages : list Message;
  stored_evaluation : option Evaluation;
  input : jsstring;
  isSending : bool;
  apiError : jsstring;
  useLiveApi : bool
}.

(** [{ ...data.evaluation, updatedAt: Date.now() }]. *)
Definition stamp (e : Route.EvaluationRecord) (now : Z) : Evaluation :=
  {| status := Route.status e;
     score := Route.score e;
     weakConcepts := Route.weakConcepts e;
     nextActions := Route.nextActions e;
     summary := Route.summary e;
     updatedAt := Some now |}.

(** [requestTutorReply] (page.tsx, 194-218) once the route has answered:
    an answer that is not [ok] is thrown as an [Error]. *)
Definition requestTutorReply (response : Route.Response) : completion TurnData :=
  if ((200 <=? Route.http_status response)
      && (Route.http_status response <=? 299))%Z
  then
    match Route.body response with
    | Route.TurnBody t e => Normal {| text := Some t; evaluation := e |}
    | Route.ErrorBody _ => Normal {| text := None; evaluation := None |}
    end
  else
    match Route.body response with
    | Route.ErrorBody e =>
        Throw (OtherError (or_default (Some e) (str "Error en la API")))
    | Route.TurnBody _ _ => Throw (OtherError (str "Error en la API"))
    end.

(** [handleSend] up to its [await] (page.tsx, 220-240); [fresh] is the
    result of [makeId()] and [now] the one of [Date.now()]. The second
    component is the history sent to the route, if a request is made. *)
Definition handleSend (fresh : jsstring) (now : Z) (s : State)
  : State * option (list Message) :=
  if negb (truthy_string (Some (trim (input s)))) || isSending s then (s, None)
  else if negb (useLiveApi s) then
    ({| messages := messages s;
        stored_evaluation := stored_evaluation s;
        input := input s;
        isSending := isSending s;
        apiError :=
          str "La API en vivo esta desactivada. Activala para responder.";
        useLiveApi := useLiveApi s |}, None)
  else
    let userMessage :=
      {| id := fresh; role := user; content := trim (input s); ts := now |} in
    let nextMessages := messages s ++ [userMessage] in
    ({| messages := nextMessages;
        stored_evaluation := stored_evaluation s;
        input := [];
        isSending := true;
        apiError := [];
        useLiveApi := useLiveApi s |}, Some nextMessages).

(** [handleStartConversation] up to its [await] (page.tsx, 267-276). *)
Definition handleStartConversation (s : State)
  : State * option (list Message) :=
  if isSending s then (s, None)
  else if negb (useLiveApi s) then
    ({| messages := messages s;
        stored_evaluation := stored_evaluation s;
        input := input s;
        isSending := isSending s;
        apiError :=
          str "La API en vivo esta desactivada. Activala para iniciar.";
        useLiveApi := useLiveApi s |}, None)
  else
    ({| messages := messages s;
        stored_evaluation := stored_evaluation s;
        input := input s;
        isSending := true;
        apiError := [];
        useLiveApi := useLiveApi s |}, Some (messages s)).

(** The rest of [handleSend] (page.tsx, 241-264) and of
    [handleStartConversation] (page.tsx, 277-300), which read the same,
    once the request has settled. *)
Definition settle (outcome : completion TurnData) (fresh : jsstring)
    (now updated : Z) (s : State) : State :=
  match outcome with
  | Normal data =>
      let replyText := or_default (text data) (str "Sin respuesta") in
      let assistantMessage :=
        {| id := fresh; role := assistant; content := replyText; ts := now |} in
      {| messages := messages s ++ [assistantMessage];
         stored_evaluation :=
           match evaluation data with
           | Some e => Some (stamp e updated)
           | None => stored_evaluation s
           end;
         input := input s;
         isSending := false;
         apiError := apiError s;
         useLiveApi := useLiveApi s |}
  | Throw error =>
      {| messages := messages s;
         stored_evaluation := stored_evaluation s;
         input := input s;
         isSending := false;
         apiError := if instanceof_Error error then message_of error
                     else str "No se pudo contactar la API";
         useLiveApi := useLiveApi s |}
  end.

(** [handleResetChat] (page.tsx, 303-307). *)
Definition handleResetChat (s : State) : State :=
  {| messages := [];
     stored_evaluation := None;
     input := input s;
     isSending := isSending s;
     apiError := [];
     useLiveApi := useLiveApi s |}.

(** What happens to the page: a handler runs up to its [await], a request
    settles, the chat is reset. *)
Inductive Event :=
| Send (fresh : jsstring) (now : Z)
| Start
| Settled (outcome : completion TurnData) (fresh : jsstring) (now updated : Z)
| Reset.

Definition step (e : Event) (s : State) : State :=
  match e with
  | Send fresh now => fst (handleSend fresh now s)
  | Start => fst (handleStartConversation s)
  | Settled outcome fresh now updated => settle outcome fresh now updated s
  | Reset => handleResetChat s
  end.

Definition steps (events : list Event) (s : State) : State :=
  fold_left (fun s e => step e s) events s.

(** The other cells of [Home] a request reads (page.tsx, 121-147): the
    saved task and student, the system prompt, and the key and model of
    [apiConfig]. *)
Record TaskConfig := {
  topic : jsstring;
  objective : jsstring;
  subject : jsstring;
  grade : jsstring;
  durationMin : jsstring
}.

Record StudentProfile := {
  name : jsstring;
  age : jsstring;
  course : jsstring;
  strengths : jsstring;
  challenges : jsstring
}.

Record Settings := {
  taskConfig : TaskConfig;
  student : StudentProfile;
  systemPrompt : jsstring;
  apiKey : jsstring;
  model : jsstring
}.

Definition wire_role (r : Role) : Route.Role :=
  match r with
  | user => Route.user
  | assistant => Route.assistant
  end.

(** The body [requestTutorReply] posts (page.tsx, 196-211): every message
    as its role and content, and the cells above. *)
Definition requestBody (c : Settings) (nextMessages : list Message)
    (start : bool) : Route.ChatRequest :=
  {| Route.messages :=
       Some (map (fun message =>
                    {| Route.msg_role := wire_role (role message);
                       Route.msg_content := content message;
                       Route.other := [] |})
                 nextMessages);
     Route.systemPrompt := Some (systemPrompt c);
     Route.model := Some (model c);
     Route.apiKey := Some (apiKey c);
     Route.taskConfig :=
       Some {| Route.topic := Some (topic (taskConfig c));
               Route.objective := Some (objective (taskConfig c));
               Route.subject := Some (subject (taskConfig c));
               Route.grade := Some (grade (taskConfig c));
               Route.durationMin := Some (durationMin (taskConfig c)) |};
     Route.student :=
       Some {| Route.name := Some (name (student c));
               Route.age := Some (age (student c));
               Route.course := Some (course (student c));
               Route.strengths := Some (strengths (student c));
               Route.challenges := Some (challenges (student c)) |};
     Route.start := Some start |}.

Section WithServer.

(** [JSON.parse], the environment of the server and the model service
    behind the route. *)
Variable JSON_parse : jsstring -> completion value.
Variable env : Route.Env.
Variable service : jsstring -> jsstring -> list Route.IncomingMessage
                   -> completion jsstring.

(** [safeParse] (page.tsx, 82-89). *)
Definition safeParse (value : option jsstring) (fallback : JsValue.value)
  : completion JsValue.value :=
  match value with
  | Some (c :: rest) =>
      try_catch (JSON_parse (c :: rest)) (fun _ => Normal fallback)
  | _ => Normal fallback
  end.

(** The answer of the route to a posted body. *)
Definition fetchChat (body : Route.ChatRequest) : Route.Response :=
  snd (Route.run service (Route.POST JSON_parse env body)).

(** A whole run of [handleSend] (page.tsx, 220-265) with nothing else
    happening before its request settles. *)
Definition sendTurn (c : Settings) (freshUser : jsstring) (nowUser : Z)
    (freshReply : jsstring) (nowReply updated : Z) (s : State) : State :=
  match handleSend freshUser nowUser s with
  | (sent, Some nextMessages) =>
      settle (requestTutorReply (fetchChat (requestBody c nextMessages false)))
             freshReply nowReply updated sent
  | (unchanged, None) => unchanged
  end.

(** A whole run of [handleStartConversation] (page.tsx, 267-301). *)
Definition startTurn (c : Settings) (freshReply : jsstring)
    (nowReply updated : Z) (s : State) : State :=
  match handleStartConversation s with
  | (sent, Some history) =>
      settle (requestTutorReply (fetchChat (requestBody c history true)))
             freshReply nowReply updated sent
  | (unchanged, None) => unchanged
  end.

End WithServer.

End Page.
(** ** Predicates of the statements *)

Definition question_mark : code_unit := 63%N.
Definition open_brace : code_unit := 123%N.
Definition close_brace : code_unit := 125%N.

(** Searching one code unit finds its first occurrence. *)
Inductive first_occurrence (c : code_unit) (s : jsstring) (i : Z) : Z -> Prop :=
| absent : ~ In c s -> first_occurrence c s i (-1)%Z
| found before after :
    s = before ++ c :: after -> ~ In c before ->
    first_occurrence c s i (i + len before)%Z.

(** The three runs of [enforceSingleQuestion]: no question mark, one, or
    a second one after the first. *)
Inductive question_marks (reply : jsstring) : jsstring -> Prop :=
| no_question :
    ~ In question_mark reply ->
    question_marks reply (trim reply)
| one_question before after :
    reply = before ++ question_mark :: after ->
    ~ In question_mark before -> ~ In question_mark after ->
    question_marks reply (trim reply)
| more_questions before after :
    reply = before ++ question_mark :: after ->
    ~ In question_mark before -> In question_mark after ->
    question_marks reply (trim (before ++ [question_mark])).


(** [p] is the index of the first, of the last occurrence of [c] in [s]. *)
Definition first_at (c : code_unit) (s : jsstring) (p : Z) : Prop :=
  exists before after,
    s = before ++ c :: after /\ ~ In c before /\ p = len before.

Definition last_at (c : code_unit) (s : jsstring) (p : Z) : Prop :=
  exists before after,
    s = before ++ c :: after /\ ~ In c after /\ p = len before.

(** The answer of a turn whose output holds no usable JSON: the raw text as
    the reply, cut to one question, and no evaluation. *)
Definition fallback (raw : jsstring) : Response :=
  {| http_status := 200;
     body := TurnBody (enforceSingleQuestion raw) None |}.

(** The raw text has no opening brace, or no closing brace, or the text
    from its first opening brace to its last closing brace is rejected by
    the parser. *)
Definition no_json (JSON_parse : jsstring -> completion value)
    (raw : jsstring) : Prop :=
  ~ In open_brace raw
  \/ ~ In close_brace raw
  \/ exists first last error,
       first_at open_brace raw first /\ last_at close_brace raw last
       /\ JSON_parse (slice raw first (last + 1)) = Throw error.

(** A [JSON.parse] for texts that are no JSON document: it throws. *)
Definition rejecting_parse (text : jsstring) : completion value :=
  Throw (SyntaxError (str "Unexpected token")).

(** A [JSON.parse] that knows the value of one document and rejects every
    other text. *)
Definition parse_only (document : jsstring) (v : value) (text : jsstring)
  : completion value :=
  if string_eqb text document then Normal v
  else Throw (SyntaxError (str "Unexpected token")).

(** The output of a turn in the manner of the scenario of the
    specification: prose, then the JSON document. *)
Definition scenario_document : jsstring := Eval cbv in
  str_q "{`reply`:`Que pasa si el agua se congela?`,`evaluation`:{`status`:`Aprobado`,`score`:145,`weakConcepts`:[`evaporacion`],`nextActions`:[],`summary`:`Buen avance`}}".

Definition scenario_output : jsstring :=
  str "Muy bien, que pasa si el agua se congela? " ++ scenario_document.

Definition scenario_value : value :=
  VObject
    [ (str "reply", VString (str "Que pasa si el agua se congela?"));
      (str "evaluation",
       VObject
         [ (str "status", VString (str "Aprobado"));
           (str "score", VNumber (of_Z 145));
           (str "weakConcepts", VArray [VString (str "evaporacion")]);
           (str "nextActions", VArray []);
           (str "summary", VString (str "Buen avance")) ]) ].

(** The values that pass the guard of [normalizeEvaluation] (route.ts, 81),
    those whose [typeof] is object and that are not null: the objects and
    the arrays. *)
Definition is_object (v : value) : bool :=
  match v with
  | VObject _ | VArray _ => true
  | _ => false
  end.

(** The property [key] of an object value, for the keys of an evaluation:
    an array has none of them. *)
Definition property (v : value) (key : jsstring) : value :=
  match v with
  | VObject props => lookup key props
  | _ => VUndefined
  end.

(** The real value of a finite number. *)
Definition value_of (x : number) : option Q :=
  match x with
  | Finite q => Some q
  | NegZero => Some 0%Q
  | NaN | Infinity _ => None
  end.

(** [n] is the integer nearest to [q], the upper one of two equally
    near. *)
Definition nearest_integer (q : Q) (n : Z) : Prop :=
  (inject_Z n - (1 # 2) <= q)%Q /\ (q < inject_Z n + (1 # 2))%Q.

Definition clamp_score (n : Z) : Z := Z.max 0 (Z.min 100 n).

Definition summary_of (v : value) : option jsstring :=
  match v with
  | VString s => Some s
  | _ => None
  end.

(** The score [normalizeEvaluation] clamps: the input score when it is a
    finite number, zero otherwise. *)
Definition score_input (v : value) : number :=
  match v with
  | VNumber n => if is_finite n then n else of_Z 0
  | _ => of_Z 0
  end.

(** The record [normalizeEvaluation] builds from an object. *)
Definition record_of (v : value) : EvaluationRecord :=
  {| status := if is_Aprobado (property v (str "status"))
               then APROBADO else EN_PROCESO;
     score := Math_max (of_Z 0)
                (Math_min (of_Z 100)
                   (Math_round (score_input (property v (str "score")))));
     weakConcepts := string_items (property v (str "weakConcepts"));
     nextActions := string_items (property v (str "nextActions"));
     summary := summary_of (property v (str "summary")) |}.

(** A credential is present when it is a string that is not empty, which
    is what the route tests. *)
Definition present (credential : option jsstring) : Prop :=
  exists c rest, credential = Some (c :: rest).

Definition system_segment (text : jsstring) : IncomingMessage :=
  {| role := system; content := text |}.

(** The five groups of segments of the context, in the words of the
    specification. *)
Definition prompt_segment (prompt : option jsstring) : list IncomingMessage :=
  match prompt with
  | Some p => match trim p with
              | [] => []
              | text => [system_segment text]
              end
  | None => []
  end.

Definition start_segment (flag : option bool) : list IncomingMessage :=
  match flag with
  | Some true => [system_segment START_INSTRUCTION]
  | _ => []
  end.

Definition reduced (message : RequestMessage) : IncomingMessage :=
  {| role := msg_role message; content := msg_content message |}.

Definition history (messages : option (list RequestMessage))
  : list IncomingMessage :=
  match messages with
  | Some ms => map reduced ms
  | None => []
  end.

Definition segments (body : ChatRequest) : list IncomingMessage :=
  prompt_segment (systemPrompt body)
  ++ [system_segment (buildContext (taskConfig body) (student body))]
  ++ start_segment (start body)
  ++ [system_segment FORMAT_INSTRUCTIONS]
  ++ history (messages body).

(** The field lines of a task and of a student profile, with the
    placeholder for every missing field. *)
Definition or_placeholder (field : option jsstring) : jsstring :=
  match field with
  | Some text => text
  | None => str "N/D"
  end.

Definition task_lines (task : TaskConfig) : list jsstring :=
  [ str "- Tema: " ++ or_placeholder (topic task);
    str "- Objetivo: " ++ or_placeholder (objective task);
    str "- Materia: " ++ or_placeholder (subject task);
    str "- Grado: " ++ or_placeholder (grade task);
    str "- Duracion estimada: " ++ or_placeholder (durationMin task)
      ++ str " min" ].

Definition student_lines (profile : StudentProfile) : list jsstring :=
  [ str "- Nombre: " ++ or_placeholder (name profile);
    str "- Edad: " ++ or_placeholder (age profile);
    str "- Curso: " ++ or_placeholder (course profile);
    str "- Fortalezas: " ++ or_placeholder (strengths profile);
    str "- Dificultades: " ++ or_placeholder (challenges profile) ].

Definition no_task : TaskConfig :=
  {| topic := None; objective := None; subject := None; grade := None;
     durationMin := None |}.

Definition no_student : StudentProfile :=
  {| name := None; age := None; course := None; strengths := None;
     challenges := None |}.

(** The context block in the words of the specification: an absent object
    is listed like one whose fields are all missing. *)
Definition context_block_claimed (task : option TaskConfig)
    (profile : option StudentProfile) : jsstring :=
  join NEWLINE
    ([str "Contexto de tarea:"]
     ++ task_lines (match task with Some t => t | None => no_task end)
     ++ [str "Perfil del alumno:"]
     ++ student_lines (match profile with Some p => p | None => no_student end)).

(** The context block of the route: an absent object has its header and
    no field line. *)
Definition context_block (task : option TaskConfig)
    (profile : option StudentProfile) : jsstring :=
  join NEWLINE
    ([str "Contexto de tarea:"]
     ++ match task with Some t => task_lines t | None => [] end
     ++ [str "Perfil del alumno:"]
     ++ match profile with Some p => student_lines p | None => [] end).

(** A page that has stored an evaluation. *)
Definition sample_state : Page.State :=
  {| Page.messages := [];
     Page.stored_evaluation :=
       Some {| Page.status := APROBADO; Page.score := of_Z 80;
               Page.weakConcepts := []; Page.nextActions := [];
               Page.summary := None; Page.updatedAt := Some 1%Z |};
     Page.input := str "No se";
     Page.isSending := false;
     Page.apiError := [];
     Page.useLiveApi := true |}.

(** An object in the words of the specification, which names an array an
    ordered collection. *)
Definition is_plain_object (v : value) : bool :=
  match v with
  | VObject _ => true
  | _ => false
  end.

(** The record of an input that has none of the properties of an
    evaluation. *)
Definition default_record : EvaluationRecord :=
  {| status := EN_PROCESO; score := of_Z 0; weakConcepts := [];
     nextActions := []; summary := None |}.

(** ** Predicates of the further statements *)

(** The string is empty or starts with a code unit that is not white
    space. *)
Definition starts_clean (s : jsstring) : Prop :=
  match s with
  | [] => True
  | c :: _ => isWhiteSpace c = false
  end.

(** The string has no white space at either end. *)
Definition trimmed (s : jsstring) : Prop :=
  starts_clean s /\ starts_clean (rev s).

(** [typeof item === "string"]. *)
Definition is_string (item : value) : bool :=
  string_eqb (typeof item) (str "string").

(** A record as the page types it: a status of the two literals and an
    integer score between 0 and 100. *)
Definition valid_record (r : EvaluationRecord) : Prop :=
  (exists n, (0 <= n <= 100)%Z /\ score r = of_Z n)
  /\ (status r = APROBADO \/ status r = EN_PROCESO).

(** The evaluation of a parsed document: the record of its [evaluation]
    property when that is an object, the record of defaults when it is an
    array, null when it is missing, null, a boolean, a number or a
    string. *)
Definition evaluation_of (parsed : value) : option EvaluationRecord :=
  match property parsed (str "evaluation") with
  | VObject props => Some (record_of (VObject props))
  | VArray _ => Some default_record
  | VUndefined | VNull | VBool _ | VNumber _ | VString _ => None
  end.

(** The reply of a parsed document: its [reply] property when that is a
    string, the raw text otherwise. *)
Definition reply_of (parsed : value) (raw : jsstring) : jsstring :=
  match property parsed (str "reply") with
  | VString s => s
  | _ => raw
  end.

(** The segments that follow the system prompt. *)
Definition segments_after_prompt (body : ChatRequest) : list IncomingMessage :=
  [system_segment (buildContext (taskConfig body) (student body))]
  ++ start_segment (start body)
  ++ [system_segment FORMAT_INSTRUCTIONS]
  ++ history (messages body).

Definition DEFAULT_MODEL : jsstring := Eval cbv in str "gpt-4.1-mini".

(** A request body with nothing but a key and a model. *)
Definition bare_request (key model : option jsstring) : ChatRequest :=
  {| messages := None; systemPrompt := None; model := model; apiKey := key;
     taskConfig := None; student := None; start := None |}.

(** A model service that repeats the content of the last segment, and one
    that fails. *)
Definition echo_service (key model : jsstring) (input : list IncomingMessage)
  : completion jsstring :=
  Normal (content (last input (system_segment []))).


(** The page is ready to send: the input is not blank, no request is
    outstanding, the live API is on. *)
Definition ready (s : Page.State) : Prop :=
  ~ Forall (fun c => isWhiteSpace c = true) (Page.input s)
  /\ Page.isSending s = false
  /\ Page.useLiveApi s = true.

(** The message [handleSend] appends for the student. *)
Definition user_message (fresh : jsstring) (now : Z) (s : Page.State)
  : Page.Message :=
  {| Page.id := fresh; Page.role := Page.user;
     Page.content := trim (Page.input s); Page.ts := now |}.

Definition valid_evaluation (e : Page.Evaluation) : Prop :=
  (exists n, (0 <= n <= 100)%Z /\ Page.score e = of_Z n)
  /\ (Page.status e = APROBADO \/ Page.status e = EN_PROCESO).

(** The stored evaluation, if any, is a valid one. *)
Definition stored_valid (s : Page.State) : Prop :=
  forall e, Page.stored_evaluation s = Some e -> valid_evaluation e.

(** A message the route takes from the page: role and content, nothing
    else. *)
Definition wire_message (message : Page.Message) : IncomingMessage :=
  {| role := Page.wire_role (Page.role message);
     content := Page.content message |}.

Definition sample_settings : Page.Settings :=
  {| Page.taskConfig :=
       {| Page.topic := str "Ciclo del agua"; Page.objective := [];
          Page.subject := str "Ciencias Naturales";
          Page.grade := str "5to grado"; Page.durationMin := str "10" |};
     Page.student :=
       {| Page.name := str "Sofia R."; Page.age := str "10";
          Page.course := str "5to A"; Page.strengths := [];
          Page.challenges := str "Vocabulario tecnico" |};
     Page.systemPrompt := str " Eres TutorNeo. ";
     Page.apiKey := [];
     Page.model := str "gpt-4.1-mini" |}.

Definition no_env : Env := {| OPENAI_API_KEY := None; OPENAI_MODEL := None |}.

Definition keyed_env : Env :=
  {| OPENAI_API_KEY := Some (str "sk-env"); OPENAI_MODEL := None |}.

(** A model service that always answers the same text. *)
Definition answering_service (raw : jsstring) (key model : jsstring)
    (input : list IncomingMessage) : completion jsstring :=
  Normal raw.
(** ** Strings: searching, slicing, trimming *)

Section StringFacts.

Local Open Scope Z_scope.

Lemma starts_with_single (c : code_unit) (s : jsstring) :
  starts_with [c] s = match s with d :: _ => unit_eqb c d | [] => false end.
Proof.
  destruct s as [|d s']; simpl; [reflexivity|].
  now rewrite andb_true_r.
Qed.

Lemma unit_eqb_eq (a b : code_unit) : unit_eqb a b = true <-> a = b.
Proof. apply N.eqb_eq. Qed.

Lemma unit_eqb_neq (a b : code_unit) : unit_eqb a b = false <-> a <> b.
Proof. apply N.eqb_neq. Qed.

Lemma find_from_single (c : code_unit) (s : jsstring) (i : Z) :
  first_occurrence c s i (find_from [c] s i).
Proof.
  revert i. induction s as [|d s' IH]; intro i.
  - simpl. now apply absent.
  - cbn [find_from]. rewrite starts_with_single.
    destruct (unit_eqb c d) eqn:E.
    + apply unit_eqb_eq in E. subst d.
      replace i with (i + len []) at 2 by (unfold len; simpl; lia).
      now apply found with (before := []) (after := s').
    + apply unit_eqb_neq in E.
      destruct (IH (i + 1)) as [Hno | before after Hs Hb].
      * apply absent. simpl. intros [H | H]; [congruence | tauto].
      * replace (i + 1 + len before) with (i + len (d :: before))
          by (unfold len; simpl List.length; lia).
        apply found with (after := after).
        -- simpl. now rewrite Hs.
        -- simpl. intros [H | H]; [congruence | tauto].
Qed.

Lemma len_nonneg (s : jsstring) : 0 <= len s.
Proof. unfold len. lia. Qed.

Lemma len_app (a b : jsstring) : len (a ++ b) = len a + len b.
Proof. unfold len. rewrite length_app. lia. Qed.

Lemma indexOf_zero (s search : jsstring) :
  indexOf s search 0 = find_from search s 0.
Proof.
  unfold indexOf, clamp. pose proof (len_nonneg s).
  replace (Z.min (Z.max 0 0) (len s)) with 0 by lia.
  reflexivity.
Qed.

Lemma indexOf_after (before after search : jsstring) (c : code_unit) :
  indexOf (before ++ c :: after) search (len before + 1)
  = find_from search after (len before + 1).
Proof.
  unfold indexOf, clamp. pose proof (len_nonneg before). pose proof (len_nonneg after).
  rewrite len_app. replace (len (c :: after)) with (1 + len after)
    by (unfold len; simpl List.length; lia).
  replace (Z.min (Z.max (len before + 1) 0) (len before + (1 + len after)))
    with (len before + 1) by lia.
  replace (Z.to_nat (len before + 1)) with (List.length (before ++ [c]))
    by (rewrite length_app; unfold len; simpl; lia).
  replace (before ++ c :: after) with ((before ++ [c]) ++ after)
    by (now rewrite <- app_assoc).
  now rewrite skipn_app, skipn_all, Nat.sub_diag.
Qed.

Lemma slice_prefix (before after : jsstring) (c : code_unit) :
  slice (before ++ c :: after) 0 (len before + 1) = before ++ [c].
Proof.
  unfold slice. pose proof (len_nonneg before). pose proof (len_nonneg after).
  rewrite len_app. replace (len (c :: after)) with (1 + len after)
    by (unfold len; simpl List.length; lia).
  replace (0 <? 0) with false by reflexivity.
  replace (len before + 1 <? 0) with false by (symmetry; apply Z.ltb_ge; lia).
  replace (Z.min 0 (len before + (1 + len after))) with 0 by lia.
  replace (Z.min (len before + 1) (len before + (1 + len after)))
    with (len before + 1) by lia.
  simpl skipn.
  replace (Z.to_nat (len before + 1 - 0)) with (List.length (before ++ [c]))
    by (rewrite length_app; unfold len; simpl; lia).
  replace (before ++ c :: after) with ((before ++ [c]) ++ after)
    by (now rewrite <- app_assoc).
  now rewrite firstn_app, firstn_all, Nat.sub_diag, app_nil_r.
Qed.

(** [trimStart] drops a prefix of white space, [trimEnd] a suffix. *)
Lemma trimStart_split (s : jsstring) :
  exists ws, s = ws ++ trimStart s /\ Forall (fun c => isWhiteSpace c = true) ws.
Proof.
  induction s as [|c s' (ws & Hs & Hws)].
  - now exists [].
  - simpl. destruct (isWhiteSpace c) eqn:E.
    + exists (c :: ws). split; [simpl; now rewrite <- Hs | now constructor].
    + now exists [].
Qed.

Lemma trimEnd_split (s : jsstring) :
  exists ws, s = trimEnd s ++ ws /\ Forall (fun c => isWhiteSpace c = true) ws.
Proof.
  unfold trimEnd. destruct (trimStart_split (rev s)) as (ws & Hs & Hws).
  exists (rev ws). split.
  - rewrite <- rev_app_distr, <- Hs. now rewrite rev_involutive.
  - now apply Forall_rev.
Qed.

Lemma trim_split (s : jsstring) :
  exists l r, s = l ++ trim s ++ r
              /\ Forall (fun c => isWhiteSpace c = true) l
              /\ Forall (fun c => isWhiteSpace c = true) r.
Proof.
  destruct (trimStart_split s) as (l & Hl & Wl).
  destruct (trimEnd_split (trimStart s)) as (r & Hr & Wr).
  exists l, r. unfold trim. now rewrite <- Hr.
Qed.

Lemma occurrences_app (c : code_unit) (a b : jsstring) :
  occurrences c (a ++ b) = (occurrences c a + occurrences c b)%nat.
Proof. apply count_occ_app. Qed.

Lemma occurrences_white (c : code_unit) (ws : jsstring) :
  isWhiteSpace c = false ->
  Forall (fun d => isWhiteSpace d = true) ws -> occurrences c ws = 0%nat.
Proof.
  intros Hc Hws. apply count_occ_not_In. intro Hin.
  rewrite Forall_forall in Hws. apply Hws in Hin. congruence.
Qed.

(** Trimming keeps every occurrence of a code unit that is not white
    space. *)
Lemma occurrences_trim (c : code_unit) (s : jsstring) :
  isWhiteSpace c = false -> occurrences c (trim s) = occurrences c s.
Proof.
  intro Hc. destruct (trim_split s) as (l & r & Hs & Wl & Wr).
  rewrite Hs at 2. rewrite !occurrences_app.
  rewrite (occurrences_white c l Hc Wl), (occurrences_white c r Hc Wr). lia.
Qed.

Lemma trimStart_last (c : code_unit) (s : jsstring) :
  isWhiteSpace c = false ->
  exists kept, trimStart (s ++ [c]) = kept ++ [c].
Proof.
  intro Hc. induction s as [|d s' (kept & IH)].
  - exists []. simpl. now rewrite Hc.
  - simpl. destruct (isWhiteSpace d).
    + now exists kept.
    + now exists (d :: s').
Qed.

Lemma trimEnd_last (c : code_unit) (s : jsstring) :
  isWhiteSpace c = false -> trimEnd (s ++ [c]) = s ++ [c].
Proof.
  intro Hc. unfold trimEnd. rewrite rev_app_distr. simpl. rewrite Hc.
  simpl. now rewrite rev_involutive.
Qed.

(** A string that ends in a code unit that is not white space still ends
    in it once trimmed. *)
Lemma trim_last (c : code_unit) (s : jsstring) :
  isWhiteSpace c = false -> exists kept, trim (s ++ [c]) = kept ++ [c].
Proof.
  intro Hc. destruct (trimStart_last c s Hc) as (kept & Hk).
  exists kept. unfold trim. rewrite Hk. now apply trimEnd_last.
Qed.

Lemma occurrences_absent (c : code_unit) (s : jsstring) :
  ~ In c s -> occurrences c s = 0%nat.
Proof. apply count_occ_not_In. Qed.

Lemma occurrences_here (c : code_unit) (before after : jsstring) :
  ~ In c before ->
  occurrences c (before ++ c :: after) = S (occurrences c after).
Proof.
  intro Hb. rewrite occurrences_app, (occurrences_absent _ _ Hb).
  unfold occurrences. now rewrite count_occ_cons_eq.
Qed.

End StringFacts.

(** ** Single-question enforcement *)

Lemma question_mark_not_white : isWhiteSpace question_mark = false.
Proof. reflexivity. Qed.

Lemma first_occurrence_nonneg (c : code_unit) (s : jsstring) (i r : Z) :
  (0 <= i)%Z -> first_occurrence c s i r ->
  (r = -1)%Z /\ ~ In c s \/ (0 <= r)%Z /\ In c s.
Proof.
  intros Hi [Hno | before after Hs Hb].
  - now left.
  - right. pose proof (len_nonneg before). split; [lia|].
    rewrite Hs. apply in_or_app. right. now left.
Qed.

Lemma enforceSingleQuestion_runs (reply : jsstring) :
  question_marks reply (enforceSingleQuestion reply).
Proof.
  unfold enforceSingleQuestion.
  change QUESTION_MARK with [question_mark].
  rewrite indexOf_zero.
  pose proof (find_from_single question_mark reply 0) as Hfirst.
  remember (find_from [question_mark] reply 0) as first eqn:E. clear E.
  destruct Hfirst as [Hno | before after Hs Hb].
  - simpl. now apply no_question.
  - pose proof (len_nonneg before) as Hlen.
    replace (0 + len before =? -1)%Z with false by (symmetry; apply Z.eqb_neq; lia).
    cbv zeta. rewrite Z.add_0_l. subst reply. rewrite indexOf_after.
    pose proof (find_from_single question_mark after (len before + 1)) as Hsecond.
    apply first_occurrence_nonneg in Hsecond; [|lia].
    destruct Hsecond as [[Hr Hafter] | [Hr Hafter]].
    + rewrite Hr. simpl. now apply one_question with before after.
    + replace (_ =? -1)%Z with false by (symmetry; apply Z.eqb_neq; lia).
      rewrite slice_prefix.
      now apply more_questions with after.
Qed.

(** C1. For every reply, [enforceSingleQuestion] returns a string with at
    most one question mark. When the reply holds two or more, the result is
    the reply cut just after its first question mark and then trimmed: it
    holds exactly one question mark, which is its last code unit. When the
    reply holds none or one, the result is the trimmed reply. *)
Theorem enforceSingleQuestion_at_most_one (reply : jsstring) :
  (occurrences question_mark (enforceSingleQuestion reply) <= 1)%nat
  /\ ((2 <= occurrences question_mark reply)%nat ->
      exists before after kept,
        reply = before ++ question_mark :: after
        /\ ~ In question_mark before
        /\ enforceSingleQuestion reply = trim (before ++ [question_mark])
        /\ enforceSingleQuestion reply = kept ++ [question_mark]
        /\ occurrences question_mark (enforceSingleQuestion reply) = 1%nat)
  /\ ((occurrences question_mark reply <= 1)%nat ->
      enforceSingleQuestion reply = trim reply).
Proof.
  pose proof question_mark_not_white as W.
  destruct (enforceSingleQuestion_runs reply)
    as [Hno | before after Hs Hb Ha | before after Hs Hb Ha].
  - pose proof (occurrences_absent _ _ Hno) as H0.
    rewrite (occurrences_trim _ reply W), H0.
    split; [lia | split; [lia | reflexivity]].
  - assert (H1 : occurrences question_mark reply = 1%nat).
    { rewrite Hs, (occurrences_here _ _ _ Hb), (occurrences_absent _ _ Ha).
      reflexivity. }
    rewrite (occurrences_trim _ reply W), H1.
    split; [lia | split; [lia | reflexivity]].
  - assert (H2 : (2 <= occurrences question_mark reply)%nat).
    { rewrite Hs, (occurrences_here _ _ _ Hb).
      apply -> (count_occ_In N.eq_dec) in Ha. unfold occurrences. lia. }
    assert (H1 : occurrences question_mark (trim (before ++ [question_mark])) = 1%nat).
    { rewrite (occurrences_trim _ _ W), (occurrences_here _ _ _ Hb).
      reflexivity. }
    rewrite H1. split; [lia | split; [| lia]].
    intros _. destruct (trim_last question_mark before W) as (kept & Hk).
    exists before, after, kept. auto.
Qed.

Lemma enforceSingleQuestion_at_most_one_witness :
  (2 <= occurrences question_mark (str "Si? No? "))%nat
  /\ (occurrences question_mark (str " Si? ") <= 1)%nat
  /\ enforceSingleQuestion (str "Si? No? ") = str "Si?"
  /\ enforceSingleQuestion (str " Si? ") = trim (str " Si? ").
Proof.
  split; [vm_compute; lia|]. split; [vm_compute; lia|]. split.
  - destruct (enforceSingleQuestion_at_most_one (str "Si? No? "))
      as (_ & (before & after & kept & _ & _ & _ & _ & _) & _);
      [vm_compute; lia | reflexivity].
  - destruct (enforceSingleQuestion_at_most_one (str " Si? ")) as (_ & _ & H).
    apply H. vm_compute. lia.
Defined.

(** ** Extraction of the embedded JSON and the fallback reply *)

Section IndexFacts.

Local Open Scope Z_scope.

Lemma find_from_absent (c : code_unit) (s : jsstring) (i : Z) :
  ~ In c s -> find_from [c] s i = -1.
Proof.
  intro Hno. pose proof (find_from_single c s i) as H.
  remember (find_from [c] s i) as r eqn:E. clear E.
  destruct H as [_ | before after Hs _]; [reflexivity|].
  exfalso. apply Hno. rewrite Hs. apply in_or_app. right. now left.
Qed.

Lemma find_from_here (c : code_unit) (before after : jsstring) (i : Z) :
  ~ In c before -> find_from [c] (before ++ c :: after) i = i + len before.
Proof.
  revert i. induction before as [|d before' IH]; intros i Hb.
  - cbn [app find_from]. rewrite starts_with_single.
    replace (unit_eqb c c) with true by (symmetry; now apply unit_eqb_eq).
    unfold len. simpl. lia.
  - cbn [app find_from]. rewrite starts_with_single.
    replace (unit_eqb c d) with false
      by (symmetry; apply unit_eqb_neq; intro; subst; apply Hb; now left).
    rewrite IH by (intro; apply Hb; now right).
    unfold len. simpl List.length. lia.
Qed.

Lemma find_last_absent (c : code_unit) (s : jsstring) (i : Z) :
  ~ In c s -> find_last [c] s i = -1.
Proof.
  revert i. induction s as [|d s' IH]; intros i Hno.
  - reflexivity.
  - cbn [find_last]. rewrite IH by (intro; apply Hno; now right).
    rewrite starts_with_single.
    replace (unit_eqb c d) with false
      by (symmetry; apply unit_eqb_neq; intro; subst; apply Hno; now left).
    reflexivity.
Qed.

Lemma find_last_here (c : code_unit) (before after : jsstring) (i : Z) :
  0 <= i -> ~ In c after ->
  find_last [c] (before ++ c :: after) i = i + len before.
Proof.
  revert i. induction before as [|d before' IH]; intros i Hi Ha.
  - cbn [app find_last]. rewrite find_last_absent by assumption.
    rewrite starts_with_single.
    replace (unit_eqb c c) with true by (symmetry; now apply unit_eqb_eq).
    unfold len. simpl. lia.
  - cbn [app find_last]. rewrite IH by (assumption || lia).
    pose proof (len_nonneg before').
    replace (0 <=? i + 1 + len before') with true
      by (symmetry; apply Z.leb_le; lia).
    unfold len. simpl List.length. lia.
Qed.

Lemma slice_middle (a b c : jsstring) :
  slice (a ++ b ++ c) (len a) (len a + len b) = b.
Proof.
  unfold slice. pose proof (len_nonneg a). pose proof (len_nonneg b).
  pose proof (len_nonneg c). rewrite !len_app.
  replace (len a <? 0) with false by (symmetry; apply Z.ltb_ge; lia).
  replace (len a + len b <? 0) with false by (symmetry; apply Z.ltb_ge; lia).
  replace (Z.min (len a) (len a + (len b + len c))) with (len a) by lia.
  replace (Z.min (len a + len b) (len a + (len b + len c)))
    with (len a + len b) by lia.
  replace (Z.to_nat (len a)) with (List.length a) by (unfold len; lia).
  replace (Z.to_nat (len a + len b - len a)) with (List.length b)
    by (unfold len; lia).
  rewrite skipn_app, skipn_all, Nat.sub_diag. simpl.
  now rewrite firstn_app, firstn_all, Nat.sub_diag, app_nil_r.
Qed.

(** A code unit that occurs has a first and a last occurrence. *)
Lemma first_split (c : code_unit) (s : jsstring) :
  In c s -> exists before after, s = before ++ c :: after /\ ~ In c before.
Proof.
  intro Hin. pose proof (find_from_single c s 0) as H.
  remember (find_from [c] s 0) as r eqn:E. clear E.
  destruct H as [Hno | before after Hs Hb]; [contradiction|].
  now exists before, after.
Qed.

Lemma last_split (c : code_unit) (s : jsstring) :
  In c s -> exists before after, s = before ++ c :: after /\ ~ In c after.
Proof.
  intro Hin. apply in_rev in Hin.
  destruct (first_split c (rev s) Hin) as (b & a & Hs & Hb).
  exists (rev a), (rev b). split.
  - rewrite <- (rev_involutive s), Hs, rev_app_distr. simpl.
    now rewrite <- app_assoc.
  - now rewrite <- in_rev.
Qed.

End IndexFacts.

Section Normalizer.

Variable JSON_parse : jsstring -> completion value.

Local Open Scope Z_scope.

Lemma indexOf_first_at (c : code_unit) (s : jsstring) (p : Z) :
  first_at c s p -> indexOf s [c] 0 = p /\ 0 <= p.
Proof.
  intros (before & after & Hs & Hb & Hp). subst s p.
  rewrite indexOf_zero, find_from_here by assumption.
  pose proof (len_nonneg before). lia.
Qed.

Lemma lastIndexOf_last_at (c : code_unit) (s : jsstring) (p : Z) :
  last_at c s p -> lastIndexOf s [c] = p /\ 0 <= p.
Proof.
  intros (before & after & Hs & Ha & Hp). subst s p.
  unfold lastIndexOf. rewrite find_last_here by (assumption || lia).
  pose proof (len_nonneg before). lia.
Qed.

Lemma indexOf_absent (c : code_unit) (s : jsstring) :
  ~ In c s -> indexOf s [c] 0 = -1.
Proof. intro H. rewrite indexOf_zero. now apply find_from_absent. Qed.

Lemma lastIndexOf_absent (c : code_unit) (s : jsstring) :
  ~ In c s -> lastIndexOf s [c] = -1.
Proof. intro H. now apply find_last_absent. Qed.

Lemma or_default_self (s : jsstring) : or_default (Some s) [] = s.
Proof. now destruct s. Qed.

(** Once extraction has failed, the turn answers the raw text. *)
Lemma normalizeOutput_fallback (raw : jsstring) :
  extractJson JSON_parse raw = Normal VNull ->
  normalizeOutput JSON_parse raw = Normal (fallback raw).
Proof.
  intro H. unfold normalizeOutput. rewrite or_default_self, H. reflexivity.
Qed.

Lemma extractJson_no_json (raw : jsstring) :
  no_json JSON_parse raw -> extractJson JSON_parse raw = Normal VNull.
Proof.
  unfold extractJson.
  change OPEN_BRACE with [open_brace]. change CLOSE_BRACE with [close_brace].
  intros [Hopen | [Hclose | (first & last & error & Hf & Hl & Hparse)]].
  - now rewrite (indexOf_absent _ _ Hopen).
  - rewrite (lastIndexOf_absent _ _ Hclose). simpl. now rewrite orb_true_r.
  - destruct (indexOf_first_at _ _ _ Hf) as [-> _].
    destruct (lastIndexOf_last_at _ _ _ Hl) as [-> _].
    destruct (_ || _ || _); [reflexivity|].
    now rewrite Hparse.
Qed.

(** C2. For every raw output that has no opening brace, or no closing
    brace, or whose text from the first opening brace to the last closing
    brace the parser rejects, the normalizer completes without a throw: its
    reply is the whole raw text, cut to one question and trimmed, and its
    evaluation is null. *)
Theorem malformed_output_falls_back (raw : jsstring) :
  no_json JSON_parse raw ->
  extractJson JSON_parse raw = Normal VNull
  /\ normalizeOutput JSON_parse raw
     = Normal {| http_status := 200;
                 body := TurnBody (enforceSingleQuestion raw) None |}
  /\ respond JSON_parse (Normal raw) = fallback raw.
Proof.
  intro H. apply extractJson_no_json in H.
  pose proof (normalizeOutput_fallback _ H) as Hn.
  split; [assumption | split; [assumption|]].
  unfold respond. cbn [bind]. now rewrite Hn.
Qed.

(** C10. For every raw output in which both braces occur and the last
    closing brace stands before the first opening brace, extraction fails
    as it does when a brace is missing: nothing is parsed, the reply is the
    whole raw text, cut to one question and trimmed, and the evaluation is
    null. *)
Theorem crossed_braces_fall_back (raw : jsstring) (first last : Z) :
  first_at open_brace raw first ->
  last_at close_brace raw last ->
  last <= first ->
  extractJson JSON_parse raw = Normal VNull
  /\ normalizeOutput JSON_parse raw
     = Normal {| http_status := 200;
                 body := TurnBody (enforceSingleQuestion raw) None |}
  /\ respond JSON_parse (Normal raw) = fallback raw.
Proof.
  intros Hf Hl Hle.
  assert (H : extractJson JSON_parse raw = Normal VNull).
  { unfold extractJson.
    change OPEN_BRACE with [open_brace]. change CLOSE_BRACE with [close_brace].
    destruct (indexOf_first_at _ _ _ Hf) as [-> _].
    destruct (lastIndexOf_last_at _ _ _ Hl) as [-> _].
    replace (last <=? first) with true by (symmetry; now apply Z.leb_le).
    now rewrite orb_true_r. }
  pose proof (normalizeOutput_fallback _ H) as Hn.
  split; [assumption | split; [assumption|]].
  unfold respond. cbn [bind]. now rewrite Hn.
Qed.

(** Whatever the parser answers, the normalizer completes: no throw
    leaves it. *)
Lemma extractJson_completes (text : jsstring) :
  exists parsed, extractJson JSON_parse text = Normal parsed.
Proof.
  unfold extractJson. destruct (_ || _ || _); [now exists VNull|].
  destruct (JSON_parse _) as [v|error]; [now exists v | now exists VNull].
Qed.

End Normalizer.

Lemma malformed_output_falls_back_witness :
  no_json rejecting_parse (str "Veamos {reply: que sigue?} ahora")
  /\ normalizeOutput rejecting_parse (str "Veamos {reply: que sigue?} ahora")
     = Normal (fallback (str "Veamos {reply: que sigue?} ahora")).
Proof.
  assert (H : no_json rejecting_parse (str "Veamos {reply: que sigue?} ahora")).
  { right. right. exists 7%Z, 25%Z, (SyntaxError (str "Unexpected token")).
    split; [|split; [|reflexivity]].
    - exists (str "Veamos "), (str "reply: que sigue?} ahora").
      split; [reflexivity | split; [|reflexivity]].
      vm_compute. intuition discriminate.
    - exists (str "Veamos {reply: que sigue?"), (str " ahora").
      split; [reflexivity | split; [|reflexivity]].
      vm_compute. intuition discriminate. }
  split; [exact H|].
  exact (proj1 (proj2 (malformed_output_falls_back rejecting_parse _ H))).
Defined.

Lemma crossed_braces_fall_back_witness :
  first_at open_brace (str "} {") 2
  /\ last_at close_brace (str "} {") 0
  /\ normalizeOutput rejecting_parse (str "} {") = Normal (fallback (str "} {")).
Proof.
  assert (Hf : first_at open_brace (str "} {") 2).
  { exists (str "} "), []. split; [reflexivity | split; [|reflexivity]].
    vm_compute. intuition discriminate. }
  assert (Hl : last_at close_brace (str "} {") 0).
  { exists [], (str " {"). split; [reflexivity | split; [|reflexivity]].
    vm_compute. intuition discriminate. }
  split; [exact Hf | split; [exact Hl|]].
  refine (proj1 (proj2 (crossed_braces_fall_back rejecting_parse _ 2%Z 0%Z Hf Hl _))).
  lia.
Defined.

(** ** Evaluation normalization *)

Section NumberFacts.

Lemma Qle_bool_inject (a b : Z) :
  Qle_bool (inject_Z a) (inject_Z b) = (a <=? b)%Z.
Proof. unfold Qle_bool, inject_Z. simpl. now rewrite !Z.mul_1_r. Qed.

Lemma Math_min_of_Z (a b : Z) :
  Math_min (of_Z a) (of_Z b) = of_Z (Z.min a b).
Proof.
  unfold Math_min, of_Z, below. rewrite Qle_bool_inject.
  destruct (Z.leb_spec a b); simpl; f_equal; f_equal; lia.
Qed.

Lemma Math_max_of_Z (a b : Z) :
  Math_max (of_Z a) (of_Z b) = of_Z (Z.max a b).
Proof.
  unfold Math_max, of_Z, below. rewrite Qle_bool_inject.
  destruct (Z.leb_spec b a); simpl; f_equal; f_equal; lia.
Qed.

(** The clamp of the route on a rounded finite number. *)
Lemma clamp_round_finite (q : Q) :
  Math_max (of_Z 0) (Math_min (of_Z 100) (Math_round (Finite q)))
  = of_Z (clamp_score (Qfloor (q + (1 # 2)))).
Proof.
  unfold Math_round, clamp_score.
  destruct ((Qfloor (q + (1 # 2)) =? 0)%Z && negb (Qle_bool 0 q)) eqn:E.
  - apply andb_prop in E. destruct E as [E _]. apply Z.eqb_eq in E.
    rewrite E. reflexivity.
  - now rewrite Math_min_of_Z, Math_max_of_Z.
Qed.

Lemma clamp_round_negzero :
  Math_max (of_Z 0) (Math_min (of_Z 100) (Math_round NegZero)) = of_Z 0.
Proof. reflexivity. Qed.

Lemma clamp_score_range (n : Z) : (0 <= clamp_score n <= 100)%Z.
Proof. unfold clamp_score. lia. Qed.

Lemma Qfloor_nearest (q : Q) : nearest_integer q (Qfloor (q + (1 # 2))).
Proof.
  unfold nearest_integer.
  pose proof (Qfloor_le (q + (1 # 2))) as Hle.
  pose proof (Qlt_floor (q + (1 # 2))) as Hlt.
  rewrite inject_Z_plus in Hlt.
  change (inject_Z 1) with 1%Q in Hlt.
  split; lra.
Qed.

End NumberFacts.

Section EvaluationFacts.

Lemma string_eqb_eq (a b : jsstring) : string_eqb a b = true <-> a = b.
Proof.
  revert b. induction a as [|x a' IH]; intros [|y b']; simpl;
    try (split; [discriminate | discriminate]); [tauto|].
  rewrite andb_true_iff, unit_eqb_eq, IH.
  split; [intros [-> ->]; reflexivity | intro H; now inversion H].
Qed.

Lemma normalizeEvaluation_object (v : value) :
  is_object v = true -> normalizeEvaluation v = Normal (Some (record_of v)).
Proof. destruct v; try discriminate; reflexivity. Qed.

Lemma normalizeEvaluation_other (v : value) :
  is_object v = false -> normalizeEvaluation v = Normal None.
Proof.
  destruct v as [| |b|n|s|items|props]; try discriminate; intros _;
    try reflexivity.
  - now destruct b.
  - unfold normalizeEvaluation. now destruct (truthy (VNumber n)).
  - unfold normalizeEvaluation. now destruct (truthy (VString s)).
Qed.

Lemma normalizeEvaluation_record (v : value) (r : EvaluationRecord) :
  normalizeEvaluation v = Normal (Some r) ->
  is_object v = true /\ r = record_of v.
Proof.
  destruct (is_object v) eqn:E; intro H.
  - rewrite (normalizeEvaluation_object _ E) in H. now inversion H.
  - rewrite (normalizeEvaluation_other _ E) in H. discriminate.
Qed.

Lemma normalizeEvaluation_completes (v : value) :
  exists r, normalizeEvaluation v = Normal r.
Proof.
  destruct (is_object v) eqn:E.
  - exists (Some (record_of v)). now apply normalizeEvaluation_object.
  - exists None. now apply normalizeEvaluation_other.
Qed.

(** An array is an object without any of the properties of an evaluation:
    its record holds the defaults. *)
Example normalizeEvaluation_array :
  normalizeEvaluation (VArray [VNumber (of_Z 1)])
  = Normal (Some {| status := EN_PROCESO; score := of_Z 0;
                    weakConcepts := []; nextActions := [];
                    summary := None |}).
Proof. reflexivity. Qed.

Example normalizeEvaluation_rounds :
  map (fun q => Math_max (of_Z 0) (Math_min (of_Z 100) (Math_round (Finite q))))
      [5 # 2; -5 # 2; -1 # 4; 199 # 2; 137 # 1]%Q
  = [of_Z 3; of_Z 0; of_Z 0; of_Z 100; of_Z 100].
Proof. reflexivity. Qed.

(** C3. For every input value for which a record is returned, the score
    of the record is an integer between 0 and 100: when the input score is
    a finite number, it is the integer nearest to it (the upper one of two
    equally near), clamped to 0 and 100; when the input score is not a
    number or not finite, it is 0. *)
Theorem score_is_clamped_integer (v : value) (r : EvaluationRecord) :
  normalizeEvaluation v = Normal (Some r) ->
  (exists n, (0 <= n <= 100)%Z /\ score r = of_Z n)
  /\ (forall x q,
        property v (str "score") = VNumber x -> value_of x = Some q ->
        nearest_integer q (Qfloor (q + (1 # 2)))
        /\ score r = of_Z (clamp_score (Qfloor (q + (1 # 2)))))
  /\ (Number_isFinite (property v (str "score")) = false ->
      score r = of_Z 0).
Proof.
  intro H. apply normalizeEvaluation_record in H. destruct H as [_ ->].
  unfold record_of. cbn [score].
  remember (property v (str "score")) as s eqn:Es. clear Es.
  split; [|split].
  - destruct s as [| |b|[|sign| |q]|t|items|props]; cbn [score_input is_finite];
      try (exists 0%Z; split; [lia | reflexivity]).
    exists (clamp_score (Qfloor (q + (1 # 2)))).
    split; [apply clamp_score_range | apply clamp_round_finite].
  - intros x q -> Hq. split; [apply Qfloor_nearest|].
    destruct x as [|sign| |p]; try discriminate; inversion Hq; subst;
      cbn [score_input is_finite].
    + reflexivity.
    + apply clamp_round_finite.
  - destruct s as [| |b|[|sign| |q]|t|items|props]; cbn [score_input is_finite Number_isFinite];
      try reflexivity; discriminate.
Qed.

Lemma score_is_clamped_integer_witness :
  let v := VObject [(str "score", VNumber (Finite 137))] in
  normalizeEvaluation v = Normal (Some (record_of v))
  /\ score (record_of v) = of_Z 100.
Proof.
  intro v. split; [reflexivity|].
  destruct (score_is_clamped_integer v (record_of v) eq_refl) as (_ & H & _).
  exact (proj2 (H (Finite 137) 137%Q eq_refl eq_refl)).
Defined.

Lemma guard_is_object (v : value) :
  truthy v = true -> typeof v = str "object" -> is_object v = true.
Proof. destruct v; intros T O; try reflexivity; discriminate. Qed.

Lemma status_of_record (v : value) :
  (status (record_of v) = APROBADO \/ status (record_of v) = EN_PROCESO)
  /\ (property v (str "status") = VString APROBADO ->
      status (record_of v) = APROBADO)
  /\ (property v (str "status") <> VString APROBADO ->
      status (record_of v) = EN_PROCESO).
Proof.
  unfold record_of. cbn [status].
  remember (property v (str "status")) as s eqn:Es. clear Es.
  split; [|split].
  - destruct (is_Aprobado s); [now left | now right].
  - intros ->. reflexivity.
  - intro Hs. destruct s as [| |b|n|t|items|props]; try reflexivity.
    cbn [is_Aprobado]. destruct (string_eqb t APROBADO) eqn:E; [|reflexivity].
    apply string_eqb_eq in E. now subst t.
Qed.

(** C4. For every input value that passes the guard of the function (its
    typeof is object and it is not null) a record is returned, and the
    status of every record returned is one of the two literals: it is the
    approved one when the input status is the string Aprobado, and the one
    in progress for every other input status, a missing one included. *)
Theorem status_is_enum (v : value) :
  (truthy v = true -> typeof v = str "object" ->
   exists r,
     normalizeEvaluation v = Normal (Some r)
     /\ (status r = APROBADO \/ status r = EN_PROCESO)
     /\ (property v (str "status") = VString APROBADO -> status r = APROBADO)
     /\ (property v (str "status") <> VString APROBADO ->
         status r = EN_PROCESO))
  /\ (forall r,
         normalizeEvaluation v = Normal (Some r) ->
         (status r = APROBADO \/ status r = EN_PROCESO)
         /\ (property v (str "status") = VString APROBADO ->
             status r = APROBADO)
         /\ (property v (str "status") <> VString APROBADO ->
             status r = EN_PROCESO)).
Proof.
  split.
  - intros T O. exists (record_of v). split.
    + apply normalizeEvaluation_object. now apply guard_is_object.
    + apply status_of_record.
  - intros r H. apply normalizeEvaluation_record in H. destruct H as [_ ->].
    apply status_of_record.
Qed.

Lemma status_is_enum_witness :
  let approved := VObject [(str "status", VString (str "Aprobado"))] in
  let other := VObject [(str "status", VString (str "aprobado"))] in
  let missing := VObject [(str "score", VNumber (of_Z 90))] in
  (exists r, normalizeEvaluation approved = Normal (Some r)
             /\ status r = APROBADO)
  /\ (exists r, normalizeEvaluation other = Normal (Some r)
                /\ status r = EN_PROCESO)
  /\ (exists r, normalizeEvaluation missing = Normal (Some r)
                /\ status r = EN_PROCESO).
Proof.
  intros approved other missing. split; [|split].
  - destruct (proj1 (status_is_enum approved) eq_refl eq_refl)
      as (r & Hr & _ & H & _).
    exists r. split; [exact Hr|]. now apply H.
  - destruct (proj1 (status_is_enum other) eq_refl eq_refl)
      as (r & Hr & _ & _ & H).
    exists r. split; [exact Hr|]. apply H. discriminate.
  - destruct (proj1 (status_is_enum missing) eq_refl eq_refl)
      as (r & Hr & _ & _ & H).
    exists r. split; [exact Hr|]. apply H. discriminate.
Defined.

(** C5, as amended. For every input that is undefined, null, a boolean, a
    number or a string, [normalizeEvaluation] returns null. For every
    object it returns a record of status, score, weakConcepts and
    nextActions, with a summary exactly when the input summary is a string.
    For every array, which passes the typeof test of the guard as an object
    does, it returns the record of defaults: in progress, score 0, empty
    lists, no summary. *)
Theorem normalizeEvaluation_null_or_record (v : value) :
  match v with
  | VUndefined | VNull | VBool _ | VNumber _ | VString _ =>
      normalizeEvaluation v = Normal None
  | VObject props =>
      normalizeEvaluation v
      = Normal (Some {|
          status := if is_Aprobado (lookup (str "status") props)
                    then APROBADO else EN_PROCESO;
          score := Math_max (of_Z 0)
                     (Math_min (of_Z 100)
                        (Math_round
                           (score_input (lookup (str "score") props))));
          weakConcepts := string_items (lookup (str "weakConcepts") props);
          nextActions := string_items (lookup (str "nextActions") props);
          summary := summary_of (lookup (str "summary") props) |})
      /\ (forall s, summary_of (lookup (str "summary") props) = Some s
                    <-> lookup (str "summary") props = VString s)
  | VArray items =>
      normalizeEvaluation v = Normal (Some default_record)
  end.
Proof.
  destruct v as [| |b|n|s|items|props];
    try (apply normalizeEvaluation_other; reflexivity);
    [reflexivity|].
  split; [reflexivity|].
  intro s. destruct (lookup (str "summary") props); cbn [summary_of];
    split; intro E; inversion E; reflexivity.
Qed.

(** C5, refuted as stated: an array is not an object in the words of the
    specification, and yet [normalizeEvaluation] returns a record for it,
    not null. *)
Lemma array_input_gives_record :
  is_plain_object (VArray []) = false
  /\ normalizeEvaluation (VArray []) = Normal (Some default_record)
  /\ normalizeEvaluation (VArray []) <> Normal None.
Proof. split; [reflexivity | split; [reflexivity | discriminate]]. Qed.

End EvaluationFacts.

(** ** The handler: credential and context *)

Section Handler.

Variable JSON_parse : jsstring -> completion value.

Lemma truthy_string_present (credential : option jsstring) :
  truthy_string credential = true <-> present credential.
Proof.
  unfold present. destruct credential as [[|c rest]|]; simpl; split;
    try discriminate; try (intros (c' & rest' & H); discriminate).
  - intros _. now exists c, rest.
  - reflexivity.
Qed.

Lemma not_present_falsy (credential : option jsstring) :
  ~ present credential -> truthy_string credential = false.
Proof.
  intro H. destruct (truthy_string credential) eqn:E; [|reflexivity].
  apply truthy_string_present in E. contradiction.
Qed.

(** C6. For every request for which neither the environment nor the body
    holds a credential (a string that is not empty), the handler answers
    status 400 with an error message and calls the model not once; when
    both hold one, the client is built with the credential of the
    environment. *)
Theorem missing_credential_fails_fast (env : Env) (body : ChatRequest) :
  (~ present (OPENAI_API_KEY env) -> ~ present (apiKey body) ->
   POST JSON_parse env body
   = Return {| http_status := 400;
               body := ErrorBody (str "Missing OPENAI_API_KEY") |}
   /\ forall service, fst (run service (POST JSON_parse env body)) = [])
  /\ (forall server_key,
        OPENAI_API_KEY env = Some server_key ->
        present (OPENAI_API_KEY env) -> present (apiKey body) ->
        exists model input k,
          POST JSON_parse env body = Create server_key model input k).
Proof.
  split.
  - intros He Hb. apply not_present_falsy in He. apply not_present_falsy in Hb.
    assert (H : POST JSON_parse env body = Return MISSING_KEY).
    { unfold POST, or_else. rewrite He.
      destruct (apiKey body) as [[|c rest]|]; try reflexivity; discriminate. }
    rewrite H. split; [reflexivity|].
    intro service. reflexivity.
  - intros server_key Hk (c & rest & He) _.
    unfold POST, or_else. rewrite He. cbn [truthy_string].
    rewrite Hk in He. inversion He. subst server_key.
    now eexists _, _, _.
Qed.

(** C7. For every request, the context is, in this order: the trimmed
    system prompt when it is not empty, the context block of the task and
    the student, the start instruction when the flag is set, the format
    instructions, and the whole history in its order, each message reduced
    to its role and content. The context is a function of the body alone:
    whatever the environment, the call to the model carries it. *)
Theorem context_segments_in_order (env : Env) (body : ChatRequest) :
  buildInput body
  = prompt_segment (systemPrompt body)
    ++ [system_segment (buildContext (taskConfig body) (student body))]
    ++ start_segment (start body)
    ++ [system_segment FORMAT_INSTRUCTIONS]
    ++ history (messages body)
  /\ (POST JSON_parse env body = Return MISSING_KEY
      \/ exists key model k,
           POST JSON_parse env body = Create key model (segments body) k).
Proof.
  assert (H : buildInput body = segments body).
  { unfold buildInput, segments, prompt_segment, start_segment, history,
      system_segment, reduced.
    destruct (systemPrompt body) as [p|]; [destruct (trim p)|];
      cbn [truthy_string app];
      destruct (start body) as [[|]|]; destruct (messages body);
      cbn [app]; rewrite <- ?app_assoc; cbn [app]; rewrite ?app_nil_r;
      reflexivity. }
  split; [exact H|].
  unfold POST. rewrite H.
  destruct (or_else (OPENAI_API_KEY env) (apiKey body)) as [[|c rest]|];
    [now left | right | now left].
  now eexists _, _, _.
Qed.

Lemma normalizeOutput_completes (raw : jsstring) :
  exists reply evaluation,
    normalizeOutput JSON_parse raw
    = Normal {| http_status := 200; body := TurnBody reply evaluation |}.
Proof.
  unfold normalizeOutput.
  destruct (extractJson_completes JSON_parse (or_default (Some raw) []))
    as (parsed & ->).
  cbn [bind].
  assert (Hreply : exists rawReply,
             (if truthy parsed
              then bind (get parsed (str "reply"))
                     (fun parsed_reply =>
                        Normal match parsed_reply with
                               | VString s => s
                               | _ => or_default (Some raw) []
                               end)
              else Normal (or_default (Some raw) [])) = Normal rawReply).
  { destruct (truthy parsed) eqn:T; [|eexists; reflexivity].
    destruct parsed; try discriminate T; cbn [get bind];
      eexists; reflexivity. }
  destruct Hreply as (rawReply & ->). cbn [bind].
  assert (Hev : exists e, get_optional parsed (str "evaluation") = Normal e).
  { destruct parsed; eexists; reflexivity. }
  destruct Hev as (e & ->). cbn [bind].
  destruct (normalizeEvaluation_completes e) as (r & ->).
  now eexists _, _.
Qed.

End Handler.

(** The scenario of the specification: the reply and the evaluation come
    from the embedded document, the score 145 is clamped to 100. *)
Example scenario_normalizes :
  normalizeOutput (parse_only scenario_document scenario_value) scenario_output
  = Normal
      {| http_status := 200;
         body :=
           TurnBody (str "Que pasa si el agua se congela?")
             (Some {| status := APROBADO; score := of_Z 100;
                      weakConcepts := [str "evaporacion"];
                      nextActions := [];
                      summary := Some (str "Buen avance") |}) |}.
Proof. vm_compute. reflexivity. Qed.

Example scenario_without_braces :
  normalizeOutput rejecting_parse (str " No tengo una respuesta clara. ")
  = Normal (fallback (str "No tengo una respuesta clara.")).
Proof. vm_compute. reflexivity. Qed.

Lemma missing_credential_fails_fast_witness :
  let bare := {| messages := None; systemPrompt := None; model := None;
                 apiKey := Some []; taskConfig := None; student := None;
                 start := None |} in
  let keyed := {| messages := None; systemPrompt := None; model := None;
                  apiKey := Some (str "sk-body"); taskConfig := None;
                  student := None; start := None |} in
  POST rejecting_parse {| OPENAI_API_KEY := None; OPENAI_MODEL := None |} bare
  = Return MISSING_KEY
  /\ exists model input k,
       POST rejecting_parse
         {| OPENAI_API_KEY := Some (str "sk-env"); OPENAI_MODEL := None |} keyed
       = Create (str "sk-env") model input k.
Proof.
  intros bare keyed. split.
  - refine (proj1 (proj1 (missing_credential_fails_fast rejecting_parse
                            {| OPENAI_API_KEY := None; OPENAI_MODEL := None |}
                            bare) _ _));
      intros (c & rest & H); discriminate.
  - refine (proj2 (missing_credential_fails_fast rejecting_parse
                     {| OPENAI_API_KEY := Some (str "sk-env");
                        OPENAI_MODEL := None |} keyed)
                  (str "sk-env") eq_refl _ _).
    + now exists 115%N, (str "k-env").
    + now exists 115%N, (str "k-body").
Defined.

(** ** The context block *)

Lemma nullish_placeholder (field : option jsstring) :
  nullish field ND = or_placeholder field.
Proof. now destruct field. Qed.

(** C8, as amended. For every request, the context block is the header of
    the task, then, when the task is present, its five fields with N/D for
    every missing one, then the header of the student profile, then, when
    the profile is present, its five fields with N/D for every missing one;
    an absent task or profile has its header and no field. *)
Theorem context_block_lists_present_objects (task : option TaskConfig)
    (profile : option StudentProfile) :
  buildContext task profile = context_block task profile.
Proof.
  unfold buildContext, context_block, task_lines, student_lines.
  destruct task as [t|], profile as [p|];
    rewrite ?nullish_placeholder; cbn [app]; reflexivity.
Qed.

(** C8, refuted as stated: when the task and the profile are absent, the
    block is the two headers, without any field or placeholder. *)
Lemma absent_objects_list_no_fields :
  buildContext None None
  = str "Contexto de tarea:" ++ NEWLINE ++ str "Perfil del alumno:"
  /\ buildContext None None <> context_block_claimed None None
  /\ context_block_claimed None None
     = join NEWLINE
         [str "Contexto de tarea:"; str "- Tema: N/D"; str "- Objetivo: N/D";
          str "- Materia: N/D"; str "- Grado: N/D";
          str "- Duracion estimada: N/D min"; str "Perfil del alumno:";
          str "- Nombre: N/D"; str "- Edad: N/D"; str "- Curso: N/D";
          str "- Fortalezas: N/D"; str "- Dificultades: N/D"].
Proof.
  split; [reflexivity | split; [|reflexivity]].
  vm_compute. discriminate.
Qed.

(** ** The evaluation cell of the page *)

Section PageFacts.





End PageFacts.


(** ** More on trimming and on single-question enforcement *)

Section TrimFacts.

Lemma trimStart_head (s : jsstring) (c : code_unit) (rest : jsstring) :
  trimStart s = c :: rest -> isWhiteSpace c = false.
Proof.
  induction s as [|d s' IH]; simpl; [discriminate|].
  destruct (isWhiteSpace d) eqn:E; [exact IH|].
  intro H. inversion H. now subst.
Qed.

Lemma trimStart_fixed (s : jsstring) :
  starts_clean s -> trimStart s = s.
Proof.
  destruct s as [|c rest]; simpl; [reflexivity|].
  intro H. now rewrite H.
Qed.

Lemma trimStart_clean (s : jsstring) : starts_clean (trimStart s).
Proof.
  unfold starts_clean. destruct (trimStart s) as [|c rest] eqn:E; [exact I|].
  now apply trimStart_head in E.
Qed.

Lemma trimStart_all_white (s : jsstring) :
  Forall (fun c => isWhiteSpace c = true) s -> trimStart s = [].
Proof.
  induction 1 as [|c s' Hc _ IH]; simpl; [reflexivity|]. now rewrite Hc.
Qed.

Lemma trimStart_empty_white (s : jsstring) :
  trimStart s = [] -> Forall (fun c => isWhiteSpace c = true) s.
Proof.
  induction s as [|c s' IH]; simpl; [constructor|].
  destruct (isWhiteSpace c) eqn:E; [|discriminate].
  intro H. constructor; auto.
Qed.

(** A string trims to the empty string exactly when it is made of white
    space. *)
Lemma trim_empty_iff (s : jsstring) :
  trim s = [] <-> Forall (fun c => isWhiteSpace c = true) s.
Proof.
  split.
  - intro H. destruct (trim_split s) as (l & r & Hs & Wl & Wr).
    rewrite H in Hs. rewrite Hs. apply Forall_app. now split.
  - intro H. unfold trim, trimEnd. now rewrite (trimStart_all_white s H).
Qed.

(** The prefix [trimEnd] keeps starts as the string does. *)
Lemma trimEnd_starts_clean (s : jsstring) :
  starts_clean s -> starts_clean (trimEnd s).
Proof.
  intro H. destruct (trimEnd_split s) as (ws & Hs & _).
  destruct (trimEnd s) as [|c rest]; [exact I|].
  rewrite Hs in H. exact H.
Qed.

Lemma trimEnd_trimEnd (s : jsstring) : trimEnd (trimEnd s) = trimEnd s.
Proof.
  unfold trimEnd. rewrite rev_involutive.
  now rewrite (trimStart_fixed _ (trimStart_clean (rev s))).
Qed.

Lemma trim_starts_clean (s : jsstring) : starts_clean (trim s).
Proof. apply trimEnd_starts_clean, trimStart_clean. Qed.

Lemma trim_ends_clean (s : jsstring) : starts_clean (rev (trim s)).
Proof.
  unfold trim, trimEnd. rewrite rev_involutive. apply trimStart_clean.
Qed.

Lemma trim_trim (s : jsstring) : trim (trim s) = trim s.
Proof.
  unfold trim at 1. rewrite (trimStart_fixed _ (trim_starts_clean s)).
  unfold trim. apply trimEnd_trimEnd.
Qed.

End TrimFacts.

Section EnforceFacts.

Lemma enforceSingleQuestion_is_trim (reply : jsstring) :
  exists text, enforceSingleQuestion reply = trim text.
Proof.
  destruct (enforceSingleQuestion_runs reply);
    [now exists reply | now exists reply
     | now exists (before ++ [question_mark])].
Qed.

Lemma enforceSingleQuestion_few (reply : jsstring) :
  (occurrences question_mark (enforceSingleQuestion reply) <= 1)%nat.
Proof.
  pose proof question_mark_not_white as W.
  destruct (enforceSingleQuestion_runs reply)
    as [Hno | before after Hs Hb Ha | before after Hs Hb Ha];
    rewrite (occurrences_trim _ _ W).
  - rewrite (occurrences_absent _ _ Hno). lia.
  - rewrite Hs, (occurrences_here _ _ _ Hb), (occurrences_absent _ _ Ha). lia.
  - rewrite (occurrences_here _ _ _ Hb). simpl. lia.
Qed.

Lemma enforceSingleQuestion_of_few (reply : jsstring) :
  (occurrences question_mark reply <= 1)%nat ->
  enforceSingleQuestion reply = trim reply.
Proof.
  intro H.
  destruct (enforceSingleQuestion_runs reply)
    as [Hno | before after Hs Hb Ha | before after Hs Hb Ha];
    try reflexivity.
  exfalso. rewrite Hs, (occurrences_here _ _ _ Hb) in H.
  apply -> (count_occ_In N.eq_dec) in Ha. unfold occurrences in H. lia.
Qed.

(** X1. The reply [enforceSingleQuestion] returns has no white space at
    either end, and enforcing it again changes nothing. *)
Theorem enforceSingleQuestion_idempotent (reply : jsstring) :
  trimmed (enforceSingleQuestion reply)
  /\ enforceSingleQuestion (enforceSingleQuestion reply)
     = enforceSingleQuestion reply.
Proof.
  split.
  - destruct (enforceSingleQuestion_is_trim reply) as (text & ->).
    split; [apply trim_starts_clean | apply trim_ends_clean].
  - rewrite (enforceSingleQuestion_of_few _ (enforceSingleQuestion_few reply)).
    destruct (enforceSingleQuestion_is_trim reply) as (text & ->).
    apply trim_trim.
Qed.

(** X2. [enforceSingleQuestion] only cuts: what it returns stands in the
    reply as it is, between a stretch of white space and the part that is
    dropped. *)
Theorem enforceSingleQuestion_only_cuts (reply : jsstring) :
  exists skipped dropped,
    reply = skipped ++ enforceSingleQuestion reply ++ dropped
    /\ Forall (fun c => isWhiteSpace c = true) skipped.
Proof.
  destruct (enforceSingleQuestion_runs reply)
    as [Hno | before after Hs Hb Ha | before after Hs Hb Ha].
  - destruct (trim_split reply) as (l & r & H & Wl & _). now exists l, r.
  - destruct (trim_split reply) as (l & r & H & Wl & _). now exists l, r.
  - destruct (trim_split (before ++ [question_mark])) as (l & r & H & Wl & _).
    exists l, (r ++ after). split; [|exact Wl].
    rewrite Hs.
    replace (before ++ question_mark :: after)
      with ((before ++ [question_mark]) ++ after)
      by (now rewrite <- app_assoc).
    rewrite H at 1. now rewrite <- !app_assoc.
Qed.

End EnforceFacts.

(** ** More on evaluation normalization *)

Section EvaluationMore.

Lemma is_string_spec (item : value) :
  is_string item = match item with VString _ => true | _ => false end.
Proof. now destruct item. Qed.

Lemma filter_strings_filter (items : list value) :
  map VString (filter_strings items) = filter is_string items.
Proof.
  induction items as [|item rest IH]; [reflexivity|].
  cbn [filter]. rewrite is_string_spec.
  destruct item; cbn [filter_strings map]; now rewrite ?IH.
Qed.

(** X3. In every record, weakConcepts and nextActions are the string items
    of the input arrays, in their order and with their repetitions; an
    input that is not an array gives an empty list. *)
Theorem string_lists_are_filtered (v : value) (r : EvaluationRecord) :
  normalizeEvaluation v = Normal (Some r) ->
  (forall items,
      property v (str "weakConcepts") = VArray items ->
      map VString (weakConcepts r) = filter is_string items)
  /\ (Array_isArray (property v (str "weakConcepts")) = false ->
      weakConcepts r = [])
  /\ (forall items,
        property v (str "nextActions") = VArray items ->
        map VString (nextActions r) = filter is_string items)
  /\ (Array_isArray (property v (str "nextActions")) = false ->
      nextActions r = []).
Proof.
  intro H. apply normalizeEvaluation_record in H. destruct H as [_ ->].
  cbn [record_of weakConcepts nextActions].
  split; [|split; [|split]].
  - intros items ->. apply filter_strings_filter.
  - destruct (property v (str "weakConcepts")); try reflexivity; discriminate.
  - intros items ->. apply filter_strings_filter.
  - destruct (property v (str "nextActions")); try reflexivity; discriminate.
Qed.

Lemma string_lists_are_filtered_witness :
  let v := VObject [(str "weakConcepts",
                     VArray [VString (str "b"); VNull; VNumber (of_Z 3);
                             VString (str "a"); VString (str "b")]);
                    (str "nextActions", VString (str "repasar"))] in
  weakConcepts (record_of v) = [str "b"; str "a"; str "b"]
  /\ nextActions (record_of v) = [].
Proof.
  intro v.
  destruct (string_lists_are_filtered v (record_of v) eq_refl)
    as (_ & _ & _ & H).
  split; [reflexivity | now apply H].
Defined.

Lemma record_of_valid (v : value) : valid_record (record_of v).
Proof.
  split; cbn [record_of score status].
  - destruct (property v (str "score")) as [| |b|[|sign| |q]|t|items|props];
      cbn [score_input is_finite];
      try (exists 0%Z; split; [lia | reflexivity]).
    exists (clamp_score (Qfloor (q + (1 # 2)))).
    split; [apply clamp_score_range | apply clamp_round_finite].
  - destruct (is_Aprobado _); [now left | now right].
Qed.

End EvaluationMore.

(** ** More on the normalizer *)

Section NormalizerMore.

Variable JSON_parse : jsstring -> completion value.

Local Open Scope Z_scope.

(** What the normalizer answers once extraction is done. *)
Lemma normalizeOutput_of_parsed (raw : jsstring) (parsed : value) :
  extractJson JSON_parse raw = Normal parsed ->
  exists rawReply candidate evaluation,
    normalizeOutput JSON_parse raw
    = Normal {| http_status := 200;
                body := TurnBody (enforceSingleQuestion rawReply) evaluation |}
    /\ normalizeEvaluation candidate = Normal evaluation
    /\ (forall props, parsed = VObject props ->
        rawReply = reply_of parsed raw
        /\ candidate = property parsed (str "evaluation")).
Proof.
  intro H. unfold normalizeOutput. rewrite or_default_self, H. cbn [bind].
  assert (Hreply : exists rawReply,
             (if truthy parsed
              then bind (get parsed (str "reply"))
                     (fun parsed_reply =>
                        Normal match parsed_reply with
                               | VString s => s
                               | _ => raw
                               end)
              else Normal raw) = Normal rawReply
             /\ (forall props, parsed = VObject props ->
                 rawReply = reply_of parsed raw)).
  { destruct (truthy parsed) eqn:T.
    - destruct parsed; try discriminate T; cbn [get bind];
        eexists; (split; [reflexivity|]); intros props' Hp;
        try discriminate Hp; reflexivity.
    - eexists; (split; [reflexivity|]); intros props' Hp.
      rewrite Hp in T. discriminate T. }
  destruct Hreply as (rawReply & -> & Hr). cbn [bind].
  assert (Hev : exists candidate,
             get_optional parsed (str "evaluation") = Normal candidate
             /\ (forall props, parsed = VObject props ->
                 candidate = property parsed (str "evaluation"))).
  { destruct parsed; eexists; (split; [reflexivity|]); intros props' Hp;
      try discriminate Hp; reflexivity. }
  destruct Hev as (candidate & -> & Hc). cbn [bind].
  destruct (normalizeEvaluation_completes candidate) as (e & He).
  rewrite He. cbn [bind].
  exists rawReply, candidate, e.
  split; [reflexivity | split; [exact He|]].
  intros props Hp. split; [now apply Hr with props | now apply Hc with props].
Qed.

(** X4. Whatever the model wrote and whatever the parser makes of it, the
    normalizer completes with status 200, and its reply holds at most one
    question mark and no white space at either end. *)
Theorem answer_is_single_question (raw : jsstring) :
  exists reply evaluation,
    normalizeOutput JSON_parse raw
    = Normal {| http_status := 200; body := TurnBody reply evaluation |}
    /\ (occurrences question_mark reply <= 1)%nat
    /\ trimmed reply.
Proof.
  destruct (extractJson_completes JSON_parse raw) as (parsed & Hp).
  destruct (normalizeOutput_of_parsed raw _ Hp)
    as (rawReply & candidate & evaluation & Hn & _ & _).
  exists (enforceSingleQuestion rawReply), evaluation.
  split; [exact Hn|]. split; [apply enforceSingleQuestion_few|].
  destruct (enforceSingleQuestion_is_trim rawReply) as (text & ->).
  split; [apply trim_starts_clean | apply trim_ends_clean].
Qed.

(** X5. Every evaluation the normalizer answers is null or a record with
    one of the two statuses and an integer score between 0 and 100. *)
Theorem answered_evaluation_is_valid (raw reply : jsstring)
    (r : EvaluationRecord) :
  normalizeOutput JSON_parse raw
  = Normal {| http_status := 200; body := TurnBody reply (Some r) |} ->
  valid_record r.
Proof.
  intro H.
  destruct (extractJson_completes JSON_parse raw) as (parsed & Hp).
  destruct (normalizeOutput_of_parsed raw _ Hp)
    as (rawReply & candidate & evaluation & Hn & He & _).
  rewrite Hn in H. inversion H. subst evaluation.
  apply normalizeEvaluation_record in He. destruct He as [_ ->].
  apply record_of_valid.
Qed.

(** X6. When the text from the first opening brace to the last closing
    brace parses to an object (not an array), the answer comes from that
    object, wherever it stands in the raw text: the reply is its [reply]
    when that is a string (the raw text otherwise), cut to one question; the
    evaluation is the record of its [evaluation] when that is an object, the
    record of defaults when it is an array, and null when it is missing,
    null, a boolean, a number or a string. *)
Theorem embedded_json_is_recovered (raw : jsstring) (first last : Z)
    (props : list (jsstring * value)) :
  first_at open_brace raw first ->
  last_at close_brace raw last ->
  first < last ->
  JSON_parse (slice raw first (last + 1)) = Normal (VObject props) ->
  normalizeOutput JSON_parse raw
  = Normal {| http_status := 200;
              body := TurnBody
                        (enforceSingleQuestion (reply_of (VObject props) raw))
                        (evaluation_of (VObject props)) |}.
Proof.
  intros Hf Hl Hlt Hparse.
  assert (Hp : extractJson JSON_parse raw = Normal (VObject props)).
  { unfold extractJson.
    change OPEN_BRACE with [open_brace]. change CLOSE_BRACE with [close_brace].
    destruct (indexOf_first_at _ _ _ Hf) as [-> H0].
    destruct (lastIndexOf_last_at _ _ _ Hl) as [-> H1].
    replace (first =? -1) with false by (symmetry; apply Z.eqb_neq; lia).
    replace (last =? -1) with false by (symmetry; apply Z.eqb_neq; lia).
    replace (last <=? first) with false by (symmetry; apply Z.leb_gt; lia).
    cbn [orb]. now rewrite Hparse. }
  destruct (normalizeOutput_of_parsed raw _ Hp)
    as (rawReply & candidate & evaluation & Hn & He & Hobj).
  destruct (Hobj props eq_refl) as [-> ->].
  rewrite Hn. do 3 f_equal.
  unfold evaluation_of.
  destruct (property (VObject props) (str "evaluation")) as [| |b|n|s|items|inner];
    try (rewrite normalizeEvaluation_other in He by reflexivity;
         now inversion He);
    rewrite normalizeEvaluation_object in He by reflexivity;
    now inversion He.
Qed.

End NormalizerMore.

Lemma answered_evaluation_is_valid_witness :
  valid_record
    {| status := APROBADO; score := of_Z 100;
       weakConcepts := [str "evaporacion"]; nextActions := [];
       summary := Some (str "Buen avance") |}.
Proof.
  refine (answered_evaluation_is_valid
            (parse_only scenario_document scenario_value) scenario_output
            (str "Que pasa si el agua se congela?") _ _).
  vm_compute. reflexivity.
Defined.

Lemma embedded_json_is_recovered_witness :
  normalizeOutput (parse_only scenario_document scenario_value) scenario_output
  = Normal {| http_status := 200;
              body := TurnBody
                        (enforceSingleQuestion
                           (reply_of scenario_value scenario_output))
                        (evaluation_of scenario_value) |}.
Proof.
  refine (embedded_json_is_recovered
            (parse_only scenario_document scenario_value) scenario_output
            42%Z 203%Z _ _ _ _ _).
  - exists (str "Muy bien, que pasa si el agua se congela? "),
           (tl scenario_document).
    split; [reflexivity | split; [|reflexivity]].
    vm_compute. intuition discriminate.
  - exists (removelast scenario_output), [].
    split; [reflexivity | split; [|reflexivity]].
    intros [].
  - lia.
  - reflexivity.
Defined.

(** ** More on the handler *)

Section HandlerMore.

Variable JSON_parse : jsstring -> completion value.

Lemma buildInput_segments (body : ChatRequest) :
  buildInput body = segments body.
Proof.
  unfold buildInput, segments, prompt_segment, start_segment, history,
    system_segment, reduced.
  destruct (systemPrompt body) as [p|]; [destruct (trim p)|];
    cbn [truthy_string app];
    destruct (start body) as [[|]|]; destruct (messages body);
    cbn [app]; rewrite <- ?app_assoc; cbn [app]; rewrite ?app_nil_r;
    reflexivity.
Qed.

Lemma present_cons (c : code_unit) (rest : jsstring) : present (Some (c :: rest)).
Proof. now exists c, rest. Qed.

Lemma or_else_present (a b : option jsstring) :
  present a \/ present b -> present (or_else a b).
Proof.
  unfold or_else. destruct (truthy_string a) eqn:E.
  - intros _. now apply truthy_string_present.
  - intros [H | H]; [|exact H].
    apply truthy_string_present in H. congruence.
Qed.

Lemma or_default_present (a : option jsstring) (c : code_unit)
    (rest : jsstring) :
  present (Some (or_default a (c :: rest))).
Proof. destruct a as [[|d a']|]; apply present_cons. Qed.

(** X7. For every request that resolves a credential, the handler calls
    the model exactly once, with the context of the body, and answers what
    the outcome of that call gives: there is no second attempt. The key and
    the model of the call are never empty. *)
Theorem keyed_request_calls_once (env : Env) (body : ChatRequest)
    (service : jsstring -> jsstring -> list IncomingMessage
               -> completion jsstring) :
  present (OPENAI_API_KEY env) \/ present (apiKey body) ->
  exists key model,
    run service (POST JSON_parse env body)
    = ([(key, model, segments body)],
       respond JSON_parse (service key model (segments body)))
    /\ present (Some key) /\ present (Some model).
Proof.
  intro H. apply or_else_present in H. destruct H as (c & rest & H).
  unfold POST. rewrite H, buildInput_segments. cbn [run].
  eexists _, _. split; [reflexivity|].
  split; [apply present_cons|].
  change (str "gpt-4.1-mini") with DEFAULT_MODEL. unfold DEFAULT_MODEL.
  apply or_default_present.
Qed.

(** X8. The credential of the call is the one of the environment when
    that is not empty, and the one of the body otherwise. *)
Theorem credential_resolution (env : Env) (body : ChatRequest)
    (key model : jsstring) (input : list IncomingMessage)
    (k : completion jsstring -> action Response) :
  POST JSON_parse env body = Create key model input k ->
  (present (OPENAI_API_KEY env) -> OPENAI_API_KEY env = Some key)
  /\ (~ present (OPENAI_API_KEY env) -> apiKey body = Some key)
  /\ key <> [].
Proof.
  unfold POST, or_else. intro H.
  destruct (truthy_string (OPENAI_API_KEY env)) eqn:E.
  - destruct (OPENAI_API_KEY env) as [[|c rest]|]; try discriminate.
    inversion H. subst. split; [reflexivity | split; [|discriminate]].
    intro Hn. exfalso. apply Hn. apply present_cons.
  - destruct (apiKey body) as [[|c rest]|]; try discriminate.
    inversion H. subst. split; [|split; [reflexivity | discriminate]].
    intro Hp. apply truthy_string_present in Hp. congruence.
Qed.

(** X9. The model of the call is the one of the body when that is not
    empty, else the one of the environment when that is not empty, else
    gpt-4.1-mini. *)
Theorem model_resolution (env : Env) (body : ChatRequest)
    (key model : jsstring) (input : list IncomingMessage)
    (k : completion jsstring -> action Response) :
  POST JSON_parse env body = Create key model input k ->
  (present (Route.model body) -> Route.model body = Some model)
  /\ (~ present (Route.model body) -> present (OPENAI_MODEL env) ->
      OPENAI_MODEL env = Some model)
  /\ (~ present (Route.model body) -> ~ present (OPENAI_MODEL env) ->
      model = DEFAULT_MODEL).
Proof.
  unfold POST. intro H.
  destruct (or_else (OPENAI_API_KEY env) (apiKey body)) as [[|c rest]|];
    try discriminate.
  inversion H as [[Hk Hm Hi Hc]]. clear H Hk Hi Hc.
  unfold or_else.
  destruct (Route.model body) as [[|d m]|]; cbn [truthy_string].
  - split; [intros (c' & r' & E); discriminate|].
    destruct (OPENAI_MODEL env) as [[|d m]|]; cbn [or_default];
      (split; [intros _ Hp | intros _ Hn]); try reflexivity;
      try (destruct Hp as (c' & r' & E); discriminate).
    exfalso. apply Hn. apply present_cons.
  - split; [reflexivity|].
    split; intro Hn; exfalso; apply Hn; apply present_cons.
  - split; [intros (c' & r' & E); discriminate|].
    destruct (OPENAI_MODEL env) as [[|d m]|]; cbn [or_default];
      (split; [intros _ Hp | intros _ Hn]); try reflexivity;
      try (destruct Hp as (c' & r' & E); discriminate).
    exfalso. apply Hn. apply present_cons.
Qed.

(** X10. Every answer of the handler is one of three: 400 with the
    missing-key message when no credential resolves, 200 with a reply and an
    evaluation, or 500 with an error; and a 500 always stems from a throw of
    the model call, never from the normalizer. *)
Theorem answer_statuses (env : Env) (body : ChatRequest)
    (service : jsstring -> jsstring -> list IncomingMessage
               -> completion jsstring) :
  let answer := snd (run service (POST JSON_parse env body)) in
  (answer = MISSING_KEY
   /\ ~ present (OPENAI_API_KEY env) /\ ~ present (apiKey body))
  \/ (exists reply evaluation,
         answer = {| http_status := 200;
                     body := TurnBody reply evaluation |})
  \/ (exists key model error,
         service key model (segments body) = Throw error
         /\ answer = upstreamFailure error
         /\ http_status answer = 500%Z).
Proof.
  intro answer. subst answer. unfold POST.
  destruct (or_else (OPENAI_API_KEY env) (apiKey body)) as [[|c rest]|] eqn:E.
  - left. split; [reflexivity|].
    unfold or_else in E.
    destruct (OPENAI_API_KEY env) as [[|c e]|], (apiKey body) as [[|d b]|];
      try discriminate E;
      split; intros (c' & r' & H); discriminate.
  - right. rewrite buildInput_segments. cbn [run snd].
    destruct (service (c :: rest) _ (segments body)) as [raw|error] eqn:S.
    + left. unfold respond. cbn [bind].
      destruct (normalizeOutput_completes JSON_parse raw) as (reply & e & ->).
      now exists reply, e.
    + right. eexists _, _, error. split; [exact S|]. now split.
  - left. split; [reflexivity|].
    unfold or_else in E.
    destruct (OPENAI_API_KEY env) as [[|c e]|], (apiKey body) as [[|d b]|];
      try discriminate E;
      split; intros (c' & r' & H); discriminate.
Qed.

(** X11. A system prompt made of white space only is left out of the
    context; any other one opens it, trimmed. *)
Theorem blank_prompt_is_dropped (body : ChatRequest) (prompt : jsstring) :
  systemPrompt body = Some prompt ->
  (Forall (fun c => isWhiteSpace c = true) prompt ->
   buildInput body = segments_after_prompt body)
  /\ (~ Forall (fun c => isWhiteSpace c = true) prompt ->
      buildInput body
      = system_segment (trim prompt) :: segments_after_prompt body
      /\ trim prompt <> []).
Proof.
  intro Hp. rewrite buildInput_segments. unfold segments. rewrite Hp.
  fold (segments_after_prompt body). cbn [prompt_segment].
  split; intro H.
  - apply trim_empty_iff in H. now rewrite H.
  - assert (Hne : trim prompt <> [])
      by (intro E; apply H; now apply trim_empty_iff).
    split; [|exact Hne].
    destruct (trim prompt); [contradiction | reflexivity].
Qed.

End HandlerMore.

Lemma keyed_request_calls_once_witness :
  exists key model,
    run echo_service
        (POST rejecting_parse
              {| OPENAI_API_KEY := None; OPENAI_MODEL := None |}
              (bare_request (Some (str "sk-body")) None))
    = ([(key, model, segments (bare_request (Some (str "sk-body")) None))],
       respond rejecting_parse
         (echo_service key model
            (segments (bare_request (Some (str "sk-body")) None)))).
Proof.
  destruct (keyed_request_calls_once rejecting_parse
              {| OPENAI_API_KEY := None; OPENAI_MODEL := None |}
              (bare_request (Some (str "sk-body")) None) echo_service)
    as (key & model & H & _).
  - right. now exists 115%N, (str "k-body").
  - now exists key, model.
Defined.

Lemma credential_resolution_witness :
  apiKey (bare_request (Some (str "sk-body")) None) = Some (str "sk-body").
Proof.
  destruct (credential_resolution rejecting_parse
              {| OPENAI_API_KEY := Some []; OPENAI_MODEL := None |}
              (bare_request (Some (str "sk-body")) None)
              (str "sk-body") DEFAULT_MODEL
              (buildInput (bare_request (Some (str "sk-body")) None))
              (fun response => Return (respond rejecting_parse response))
              eq_refl) as (_ & H & _).
  apply H. intros (c & rest & E). discriminate.
Defined.

Lemma model_resolution_witness :
  OPENAI_MODEL {| OPENAI_API_KEY := Some (str "sk-env");
                  OPENAI_MODEL := Some (str "gpt-4.1") |}
  = Some (str "gpt-4.1").
Proof.
  destruct (model_resolution rejecting_parse
              {| OPENAI_API_KEY := Some (str "sk-env");
                 OPENAI_MODEL := Some (str "gpt-4.1") |}
              (bare_request None (Some []))
              (str "sk-env") (str "gpt-4.1")
              (buildInput (bare_request None (Some [])))
              (fun response => Return (respond rejecting_parse response))
              eq_refl) as (_ & H & _).
  apply H.
  - intros (c & rest & E). discriminate.
  - now exists 103%N, (str "pt-4.1").
Defined.

Lemma blank_prompt_is_dropped_witness :
  let blank := {| messages := None; systemPrompt := Some (str "   ");
                  model := None; apiKey := None; taskConfig := None;
                  student := None; start := None |} in
  buildInput blank = segments_after_prompt blank.
Proof.
  intro blank.
  refine (proj1 (blank_prompt_is_dropped blank (str "   ") eq_refl) _).
  repeat constructor.
Defined.

(** ** More on the handlers of the page *)

Section PageMore.

Lemma blank_input_falsy (text : jsstring) :
  Forall (fun c => isWhiteSpace c = true) text ->
  truthy_string (Some (trim text)) = false.
Proof. intro H. apply trim_empty_iff in H. now rewrite H. Qed.

Lemma filled_input_truthy (text : jsstring) :
  ~ Forall (fun c => isWhiteSpace c = true) text ->
  truthy_string (Some (trim text)) = true /\ trim text <> [].
Proof.
  intro H. destruct (trim text) as [|c rest] eqn:E.
  - exfalso. apply H. now apply trim_empty_iff.
  - split; [reflexivity | discriminate].
Qed.

(** X12. [handleSend] ignores an input that is empty or made of white
    space only: the state stays as it is and nothing is requested. *)
Theorem blank_input_is_ignored (fresh : jsstring) (now : Z) (s : Page.State) :
  Forall (fun c => isWhiteSpace c = true) (Page.input s) ->
  Page.handleSend fresh now s = (s, None).
Proof.
  intro H. unfold Page.handleSend. now rewrite (blank_input_falsy _ H).
Qed.

(** X13. While a request is outstanding neither handler sends another
    one or changes the state; and a handler that sends marks the request as
    outstanding. *)
Theorem one_request_at_a_time (fresh : jsstring) (now : Z) (s : Page.State) :
  (Page.isSending s = true ->
   Page.handleSend fresh now s = (s, None)
   /\ Page.handleStartConversation s = (s, None))
  /\ (forall sent request,
         Page.handleSend fresh now s = (sent, Some request)
         \/ Page.handleStartConversation s = (sent, Some request) ->
         Page.isSending s = false /\ Page.isSending sent = true).
Proof.
  split.
  - intro H. unfold Page.handleSend, Page.handleStartConversation.
    rewrite H, orb_true_r. now split.
  - intros sent request.
    unfold Page.handleSend, Page.handleStartConversation.
    destruct (Page.isSending s); rewrite ?orb_true_r, ?orb_false_r.
    + intros [H | H]; discriminate.
    + destruct (negb (truthy_string _)), (negb (Page.useLiveApi s));
        intros [H | H]; try discriminate; inversion H; now split.
Qed.

(** X14. When the page is ready, [handleSend] appends one message of the
    student whose content is the trimmed input, which is not empty, empties
    the input and the error, leaves the evaluation, and requests a reply
    for the history with that message at its end. *)
Theorem ready_send_appends_message (fresh : jsstring) (now : Z)
    (s : Page.State) :
  ready s ->
  exists sent,
    Page.handleSend fresh now s
    = (sent, Some (Page.messages s ++ [user_message fresh now s]))
    /\ Page.messages sent = Page.messages s ++ [user_message fresh now s]
    /\ Page.content (user_message fresh now s) <> []
    /\ Page.input sent = []
    /\ Page.apiError sent = []
    /\ Page.isSending sent = true
    /\ Page.stored_evaluation sent = Page.stored_evaluation s.
Proof.
  intros (Hinput & Hsending & Hlive).
  destruct (filled_input_truthy _ Hinput) as [Ht Hne].
  unfold Page.handleSend. rewrite Ht, Hsending, Hlive. cbn [negb orb].
  eexists. split; [reflexivity|]. cbn. now repeat split.
Qed.

Lemma step_appends (e : Page.Event) (s : Page.State) :
  e <> Page.Reset ->
  exists added,
    Page.messages (Page.step e s) = Page.messages s ++ added
    /\ Forall (fun m => Page.content m <> []) added.
Proof.
  intro He. destruct e as [fresh now| |outcome fresh now updated|];
    [| | |contradiction]; cbn [Page.step].
  - unfold Page.handleSend.
    destruct (negb (truthy_string (Some (trim (Page.input s))))) eqn:T;
      cbn [orb fst].
    + exists []. now rewrite app_nil_r.
    + destruct (Page.isSending s); cbn [fst];
        [exists []; now rewrite app_nil_r|].
      destruct (negb (Page.useLiveApi s)); cbn [fst Page.messages];
        [exists []; now rewrite app_nil_r|].
      eexists. split; [reflexivity|]. constructor; [|constructor].
      cbn [Page.content]. destruct (trim (Page.input s)); discriminate.
  - unfold Page.handleStartConversation.
    destruct (Page.isSending s); [|destruct (negb _)]; cbn [fst Page.messages];
      exists []; now rewrite app_nil_r.
  - destruct outcome as [data|error]; cbn [Page.settle Page.messages].
    + eexists. split; [reflexivity|]. constructor; [|constructor].
      cbn [Page.content]. destruct (Page.text data) as [[|c rest]|]; discriminate.
    + exists []. now rewrite app_nil_r.
Qed.

(** X15. Through any handlers other than the reset the history only
    grows at its end: what was in it stays, in its order. *)
Theorem history_is_append_only (events : list Page.Event) (s : Page.State) :
  ~ In Page.Reset events ->
  exists added,
    Page.messages (Page.steps events s) = Page.messages s ++ added.
Proof.
  revert s. induction events as [|e events' IH]; intros s Hno.
  - exists []. cbn. now rewrite app_nil_r.
  - cbn [Page.steps fold_left].
    destruct (step_appends e s) as (first & Hfirst & _);
      [intro H; apply Hno; now left|].
    destruct (IH (Page.step e s)) as (rest & Hrest);
      [intro H; apply Hno; now right|].
    exists (first ++ rest). unfold Page.steps in Hrest.
    now rewrite Hrest, Hfirst, app_assoc.
Qed.

(** X16. No handler puts a message with an empty content into the
    history: a history without one stays without one. *)
Theorem contents_are_never_empty (events : list Page.Event) (s : Page.State) :
  Forall (fun m => Page.content m <> []) (Page.messages s) ->
  Forall (fun m => Page.content m <> []) (Page.messages (Page.steps events s)).
Proof.
  revert s. induction events as [|e events' IH]; intros s Hs; [exact Hs|].
  cbn [Page.steps fold_left]. apply IH.
  destruct e as [fresh now| |outcome fresh now updated|].
  - destruct (step_appends (Page.Send fresh now) s) as (added & -> & Ha);
      [discriminate|]. apply Forall_app. now split.
  - destruct (step_appends Page.Start s) as (added & -> & Ha);
      [discriminate|]. apply Forall_app. now split.
  - destruct (step_appends (Page.Settled outcome fresh now updated) s)
      as (added & -> & Ha); [discriminate|]. apply Forall_app. now split.
  - constructor.
Qed.

(** X17. The reset does not cancel a request: a reply that settles after
    it is appended to the emptied history, and its evaluation is stored. *)
Theorem reset_does_not_cancel (data : Page.TurnData) (fresh : jsstring)
    (now updated : Z) (s : Page.State) :
  let after :=
    Page.settle (Normal data) fresh now updated (Page.handleResetChat s) in
  Page.messages after
  = [{| Page.id := fresh; Page.role := Page.assistant;
        Page.content := or_default (Page.text data) (str "Sin respuesta");
        Page.ts := now |}]
  /\ Page.stored_evaluation after
     = option_map (fun e => Page.stamp e updated) (Page.evaluation data).
Proof.
  cbn. split; [reflexivity|]. now destruct (Page.evaluation data).
Qed.

End PageMore.

Lemma blank_input_is_ignored_witness :
  let blank := {| Page.messages := []; Page.stored_evaluation := None;
                  Page.input := str "  "; Page.isSending := false;
                  Page.apiError := []; Page.useLiveApi := true |} in
  Page.handleSend (str "1-a") 10 blank = (blank, None).
Proof.
  intro blank. apply (blank_input_is_ignored (str "1-a") 10 blank).
  repeat constructor.
Defined.

Lemma one_request_at_a_time_witness :
  let sent := fst (Page.handleSend (str "1-a") 10 sample_state) in
  Page.isSending sent = true
  /\ Page.handleSend (str "2-b") 11 sent = (sent, None).
Proof.
  intro sent.
  assert (H : Page.isSending sent = true).
  { refine (proj2 (proj2 (one_request_at_a_time (str "1-a") 10 sample_state)
                         sent (Page.messages sent) _)).
    left. reflexivity. }
  split; [exact H|].
  exact (proj1 (proj1 (one_request_at_a_time (str "2-b") 11 sent) H)).
Defined.

Lemma sample_state_ready : ready sample_state.
Proof.
  split; [|split; reflexivity].
  intro H. inversion H as [|c rest Hc _]. discriminate Hc.
Defined.

Lemma ready_send_appends_message_witness :
  exists sent,
    Page.handleSend (str "1-a") 10 sample_state
    = (sent, Some [user_message (str "1-a") 10 sample_state])
    /\ Page.input sent = [].
Proof.
  destruct (ready_send_appends_message (str "1-a") 10 sample_state
              sample_state_ready) as (sent & H & _ & _ & Hin & _).
  exists sent. now split.
Defined.

Lemma history_is_append_only_witness :
  exists added,
    Page.messages
      (Page.steps [Page.Send (str "1-a") 10;
                   Page.Settled (Throw (OtherError (str "caida")))
                                (str "2-b") 20 21] sample_state)
    = Page.messages sample_state ++ added.
Proof.
  apply history_is_append_only.
  simpl. intros [H | [H | H]]; [discriminate | discriminate | exact H].
Defined.

Lemma contents_are_never_empty_witness :
  Forall (fun m => Page.content m <> [])
    (Page.messages
       (Page.steps [Page.Send (str "1-a") 10;
                    Page.Settled
                      (Normal {| Page.text := Some [];
                                 Page.evaluation := None |})
                      (str "2-b") 20 21] sample_state)).
Proof.
  apply contents_are_never_empty. constructor.
Defined.

(** ** Whole turns: the page against the route *)

Section Turns.

Variable JSON_parse : jsstring -> completion value.
Variable env : Env.
Variable service : jsstring -> jsstring -> list IncomingMessage
                   -> completion jsstring.

(** The answer of the normalizer, with what holds of it. *)
Lemma respond_normal (raw : jsstring) :
  exists rawReply evaluation,
    respond JSON_parse (Normal raw)
    = {| http_status := 200;
         body := TurnBody (enforceSingleQuestion rawReply) evaluation |}
    /\ (forall r, evaluation = Some r -> valid_record r).
Proof.
  destruct (extractJson_completes JSON_parse raw) as (parsed & Hp).
  destruct (normalizeOutput_of_parsed JSON_parse raw _ Hp)
    as (rawReply & candidate & evaluation & Hn & He & _).
  exists rawReply, evaluation. unfold respond. cbn [bind]. rewrite Hn.
  split; [reflexivity|].
  intros r ->. apply normalizeEvaluation_record in He.
  destruct He as [_ ->]. apply record_of_valid.
Qed.

(** The answer [fetch] receives: the missing-key answer, or the one the
    handler makes of the outcome of its call to the model. *)
Lemma fetchChat_cases (body : ChatRequest) :
  (~ present (OPENAI_API_KEY env) /\ ~ present (apiKey body)
   /\ Page.fetchChat JSON_parse env service body = MISSING_KEY)
  \/ ((present (OPENAI_API_KEY env) \/ present (apiKey body))
      /\ exists key model,
           Page.fetchChat JSON_parse env service body
           = respond JSON_parse (service key model (segments body))).
Proof.
  unfold Page.fetchChat, POST, or_else.
  destruct (OPENAI_API_KEY env) as [[|c e]|]; cbn [truthy_string];
    try (right; split; [left; apply present_cons|];
         rewrite buildInput_segments; cbn [run snd]; now eexists _, _);
    destruct (apiKey body) as [[|d b]|];
    try (right; split; [right; apply present_cons|];
         rewrite buildInput_segments; cbn [run snd]; now eexists _, _);
    left; (split; [intros (c' & r' & H); discriminate|]);
    (split; [intros (c' & r' & H); discriminate | reflexivity]).
Qed.

Lemma POST_without_key (body : ChatRequest) :
  ~ present (OPENAI_API_KEY env) -> ~ present (apiKey body) ->
  POST JSON_parse env body = Return MISSING_KEY.
Proof.
  intros He Hb. apply not_present_falsy in He. apply not_present_falsy in Hb.
  unfold POST, or_else. rewrite He.
  destruct (apiKey body) as [[|c rest]|]; try reflexivity; discriminate.
Qed.


Lemma ready_handleSend (fresh : jsstring) (now : Z) (s : Page.State) :
  ready s ->
  Page.handleSend fresh now s
  = ({| Page.messages := Page.messages s ++ [user_message fresh now s];
        Page.stored_evaluation := Page.stored_evaluation s;
        Page.input := [];
        Page.isSending := true;
        Page.apiError := [];
        Page.useLiveApi := Page.useLiveApi s |},
     Some (Page.messages s ++ [user_message fresh now s])).
Proof.
  intros (Hinput & Hsending & Hlive).
  destruct (filled_input_truthy _ Hinput) as [Ht _].
  unfold Page.handleSend. rewrite Ht, Hsending, Hlive. reflexivity.
Qed.

(** X18. When neither the server nor the page has a key, a turn of a
    ready page calls no model: the handler returns its missing-key answer
    and the list of its calls to the model service is empty. The message of
    the student stays in the history without a reply, the error shown is
    the missing-key message of the route, and the evaluation is the one
    stored before. *)
Theorem missing_key_reaches_the_page (c : Page.Settings)
    (freshUser freshReply : jsstring) (nowUser nowReply updated : Z)
    (s : Page.State) :
  ready s ->
  ~ present (OPENAI_API_KEY env) ->
  Page.apiKey c = [] ->
  let posted :=
    Page.requestBody c
      (Page.messages s ++ [user_message freshUser nowUser s]) false in
  let after := Page.sendTurn JSON_parse env service c freshUser nowUser
                             freshReply nowReply updated s in
  Page.handleSend freshUser nowUser s
  = (fst (Page.handleSend freshUser nowUser s),
     Some (Page.messages s ++ [user_message freshUser nowUser s]))
  /\ POST JSON_parse env posted = Return MISSING_KEY
  /\ fst (run service (POST JSON_parse env posted)) = []
  /\ Page.apiError after = str "Missing OPENAI_API_KEY"
  /\ Page.messages after = Page.messages s ++ [user_message freshUser nowUser s]
  /\ Page.stored_evaluation after = Page.stored_evaluation s
  /\ Page.isSending after = false.
Proof.
  intros Hready Henv Hkey posted after. subst posted after.
  assert (Hpost : POST JSON_parse env
                    (Page.requestBody c
                       (Page.messages s ++ [user_message freshUser nowUser s])
                       false)
                  = Return MISSING_KEY).
  { apply POST_without_key; [exact Henv|].
    cbn [Page.requestBody apiKey]. rewrite Hkey.
    intros (c' & r' & H). discriminate. }
  unfold Page.sendTurn, Page.fetchChat.
  rewrite (ready_handleSend freshUser nowUser s Hready), Hpost.
  cbn [fst]. now repeat split.
Qed.


(** X20. A turn never stores an evaluation that is not valid: whatever the
    model and the parser answer, a send or a start from a page whose stored
    evaluation is valid leaves one that is valid. *)
Theorem turns_keep_evaluation_valid (c : Page.Settings)
    (freshUser freshReply : jsstring) (nowUser nowReply updated : Z)
    (s : Page.State) :
  stored_valid s ->
  stored_valid (Page.sendTurn JSON_parse env service c freshUser nowUser
                              freshReply nowReply updated s)
  /\ stored_valid (Page.startTurn JSON_parse env service c
                                  freshReply nowReply updated s).
Proof.
  intro Hs.
  assert (Hsettle : forall body sent,
             Page.stored_evaluation sent = Page.stored_evaluation s ->
             stored_valid
               (Page.settle
                  (Page.requestTutorReply
                     (Page.fetchChat JSON_parse env service body))
                  freshReply nowReply updated sent)).
  { intros body sent Hsent e.
    destruct (fetchChat_cases body) as [(_ & _ & ->) | (_ & key & model & ->)].
    - cbn. rewrite Hsent. apply Hs.
    - destruct (service key model (segments body)) as [raw|error].
      + destruct (respond_normal raw) as (rawReply & evaluation & -> & Hv).
        cbn. destruct evaluation as [r|]; [|rewrite Hsent; apply Hs].
        intro H. inversion H. subst e.
        destruct (Hv r eq_refl) as [Hscore Hstatus]. now split.
      + cbn. rewrite Hsent. apply Hs. }
  split.
  - unfold Page.sendTurn.
    destruct (Page.handleSend freshUser nowUser s) as [sent [request|]] eqn:E.
    + apply Hsettle. unfold Page.handleSend in E.
      destruct (_ || _); [discriminate|].
      destruct (negb _); [discriminate|]. now inversion E.
    + unfold Page.handleSend in E.
      destruct (_ || _); [now inversion E; subst|].
      destruct (negb _); [|discriminate]. inversion E. subst. exact Hs.
  - unfold Page.startTurn.
    destruct (Page.handleStartConversation s) as [sent [request|]] eqn:E.
    + apply Hsettle. unfold Page.handleStartConversation in E.
      destruct (Page.isSending s); [discriminate|].
      destruct (negb _); [discriminate|]. now inversion E.
    + unfold Page.handleStartConversation in E.
      destruct (Page.isSending s); [now inversion E; subst|].
      destruct (negb _); [|discriminate]. inversion E. subst. exact Hs.
Qed.


(** X22. The context the route builds for a request of the page: the
    trimmed prompt when it is not blank, the block of the task and the
    student with each of the ten fields as it is saved (an empty field stays
    empty, no placeholder is put), the start instruction for a start, the
    format instructions, and every message of the page in its order as its
    role and content, without its id and time. *)
Theorem page_request_context (c : Page.Settings)
    (sent : list Page.Message) (start : bool) :
  buildInput (Page.requestBody c sent start)
  = prompt_segment (Some (Page.systemPrompt c))
    ++ [system_segment
          (join NEWLINE
             [str "Contexto de tarea:";
              str "- Tema: " ++ Page.topic (Page.taskConfig c);
              str "- Objetivo: " ++ Page.objective (Page.taskConfig c);
              str "- Materia: " ++ Page.subject (Page.taskConfig c);
              str "- Grado: " ++ Page.grade (Page.taskConfig c);
              str "- Duracion estimada: "
                ++ Page.durationMin (Page.taskConfig c) ++ str " min";
              str "Perfil del alumno:";
              str "- Nombre: " ++ Page.name (Page.student c);
              str "- Edad: " ++ Page.age (Page.student c);
              str "- Curso: " ++ Page.course (Page.student c);
              str "- Fortalezas: " ++ Page.strengths (Page.student c);
              str "- Dificultades: " ++ Page.challenges (Page.student c)])]
    ++ (if start then [system_segment START_INSTRUCTION] else [])
    ++ [system_segment FORMAT_INSTRUCTIONS]
    ++ map wire_message sent.
Proof.
  rewrite buildInput_segments. unfold segments.
  cbn [Page.requestBody systemPrompt taskConfig student Route.start messages
       history start_segment].
  rewrite map_map. destruct start; reflexivity.
Qed.

(** X23. [safeParse] never throws: it gives the fallback for a missing or
    empty text and for a text the parser rejects, and the parsed value,
    whatever its shape, for any other text. *)
Theorem safeParse_falls_back (stored : option jsstring) (fallback : value) :
  exists result,
    Page.safeParse JSON_parse stored fallback = Normal result
    /\ (~ present stored -> result = fallback)
    /\ (forall text error,
           stored = Some text -> JSON_parse text = Throw error ->
           result = fallback)
    /\ (forall text parsed,
           stored = Some text -> text <> [] ->
           JSON_parse text = Normal parsed -> result = parsed).
Proof.
  unfold Page.safeParse. destruct stored as [[|c rest]|].
  - exists fallback. split; [reflexivity|]. split; [reflexivity|].
    split; [reflexivity|]. intros text parsed H Hne. inversion H. now subst.
  - destruct (JSON_parse (c :: rest)) as [v|error] eqn:E.
    + exists v. split; [reflexivity|]. split.
      * intro Hn. exfalso. apply Hn. apply present_cons.
      * split; intros text x H; inversion H; subst; [congruence|].
        intros _ Hp. congruence.
    + exists fallback. split; [reflexivity|]. split; [reflexivity|].
      split; [reflexivity|].
      intros text parsed H; inversion H; subst. intros _ Hp. congruence.
  - exists fallback. split; [reflexivity|]. split; [reflexivity|].
    split; [reflexivity|]. discriminate.
Qed.

End Turns.

Lemma missing_key_reaches_the_page_witness :
  fst (run echo_service
         (POST rejecting_parse no_env
            (Page.requestBody sample_settings
               (Page.messages sample_state
                  ++ [user_message (str "1-a") 10 sample_state]) false)))
  = []
  /\ Page.apiError
       (Page.sendTurn rejecting_parse no_env echo_service sample_settings
                      (str "1-a") 10 (str "2-b") 20 21 sample_state)
     = str "Missing OPENAI_API_KEY".
Proof.
  destruct (missing_key_reaches_the_page rejecting_parse no_env
              echo_service sample_settings (str "1-a") (str "2-b")
              10 20 21 sample_state sample_state_ready)
    as (_ & _ & Hcalls & Herror & _).
  - intros (c & rest & H). discriminate.
  - reflexivity.
  - split; [exact Hcalls | exact Herror].
Defined.


Lemma sample_state_valid : stored_valid sample_state.
Proof.
  intros e H. inversion H. subst e. split; cbn.
  - exists 80%Z. split; [lia | reflexivity].
  - now left.
Defined.

Lemma turns_keep_evaluation_valid_witness :
  stored_valid
    (Page.sendTurn (parse_only scenario_document scenario_value) keyed_env
                   (answering_service scenario_output) sample_settings
                   (str "1-a") 10 (str "2-b") 20 21 sample_state).
Proof.
  exact (proj1 (turns_keep_evaluation_valid
                  (parse_only scenario_document scenario_value) keyed_env
                  (answering_service scenario_output) sample_settings
                  (str "1-a") (str "2-b") 10 20 21 sample_state
                  sample_state_valid)).
Defined.


Lemma safeParse_falls_back_witness :
  exists result,
    Page.safeParse rejecting_parse (Some (str "{")) VNull = Normal result
    /\ result = VNull.
Proof.
  destruct (safeParse_falls_back rejecting_parse (Some (str "{")) VNull)
    as (result & Hr & _ & Hthrow & _).
  exists result. split; [exact Hr|].
  now apply (Hthrow (str "{") (SyntaxError (str "Unexpected token"))).
Defined.

(** A turn on the scenario: the reply of the document reaches the history
    and its evaluation is stored with the clamped score. *)
Example scenario_turn :
  let after :=
    Page.sendTurn (parse_only scenario_document scenario_value) keyed_env
                  (answering_service scenario_output) sample_settings
                  (str "1-a") 10 (str "2-b") 20 21 sample_state in
  map Page.content (Page.messages after)
  = [str "No se"; str "Que pasa si el agua se congela?"]
  /\ option_map Page.score (Page.stored_evaluation after) = Some (of_Z 100)
  /\ option_map Page.updatedAt (Page.stored_evaluation after) = Some (Some 21%Z).
Proof. vm_compute. repeat split. Qed.
